(** * Anki Cards: card extraction, merging, selection and SM-2 style scheduling

    A shallow embedding of the plugin's core (the [AnkiPlugin] class):
    [findAnkiCardsInContent], [generateCardId], [indexAnkiCards],
    [reviewCards], [getRandomSubset], [calculateNextReview] and
    [updateCardAfterReview].

    Conventions of the embedding.
    - A JavaScript string is the list of its UTF-16 code units ([list Z]),
      which is what [charCodeAt], the regular expressions and [trim] see.
    - Time stamps, day counts, review counts and session sizes are [Z].
    - The ease factor and the two multipliers of the settings are exact
      rationals ([Q]): IEEE rounding, NaN and the infinities are left out.
      [Math.round x] is [Qfloor (x + 1/2)] (ties go up, as in JavaScript).
    - The arithmetic of [calculateNextReview] is embedded a second time on
      IEEE binary64 numbers (module [Double]), bit for bit as JavaScript
      computes it: the interval of a later review is the rounding of a
      product of doubles, which an exact product does not always share.
    - An optional field of a card is an [option]; JavaScript truthiness of a
      number ([!x]) is written out: unset and zero are both falsy.
    - The plugin's data file, its in-memory cache and the calls to the host's
      [saveData] are explicit state ([Plugin]). The host's [loadData] and
      [saveData] are taken to succeed. *)

From stdpp Require Import gmap list strings.
From Stdlib Require Import ZArith QArith Qround Qminmax Lqa.
From Stdlib Require Import PrimFloat FloatOps SpecFloat FloatAxioms.
From Stdlib Require Uint63.

Set Warnings "-inexact-float".

Local Open Scope Z_scope.

(** ** JavaScript primitives *)

Module JS.

Abbreviation jsstring := (list Z).

(** A literal whose characters are all below U+0100. *)
Definition str (s : string) : jsstring :=
  (fun a => Z.of_N (Ascii.N_of_ascii a)) <$> String.list_ascii_of_string s.

Definition LF : Z := 10.

(** [s.startsWith(p)], code unit by code unit. *)
Fixpoint startsWith (p s : jsstring) : bool :=
  match p, s with
  | [], _ => true
  | a :: p', b :: s' => (a =? b) && startsWith p' s'
  | _ :: _, [] => false
  end.

(** [s.indexOf(p)]: the first index at which [p] occurs in [s]. *)
Fixpoint indexOf (p s : jsstring) {struct s} : option nat :=
  if startsWith p s then Some O
  else match s with
       | [] => None
       | _ :: s' => S <$> indexOf p s'
       end.

(** [s.split(re)] for a regular expression that never matches the empty
    string. [m] is the sticky matcher of [re]: on the suffix of the input
    that starts at the current index it answers the length of the match
    there. The scan goes left to right; after a match it resumes behind the
    match ([skip] counts the code units of the match still to be passed),
    and the rest of the input is the last piece. *)
Fixpoint splitBy (m : jsstring -> option nat) (s : jsstring)
         (skip : nat) (piece : jsstring) {struct s} : list jsstring :=
  match s with
  | [] => [rev piece]
  | c :: s' =>
      match skip with
      | S k => splitBy m s' k piece
      | O =>
          match m s with
          | Some (S len) => rev piece :: splitBy m s' len []
          | _ => splitBy m s' O (c :: piece)
          end
      end
  end.

Definition split (m : jsstring -> option nat) (s : jsstring) : list jsstring :=
  splitBy m s O [].

(** WhiteSpace and LineTerminator code points of ECMAScript: what
    [String.prototype.trim] strips. *)
Definition isWhiteSpace (c : Z) : bool :=
  (c =? 9) || (c =? 10) || (c =? 11) || (c =? 12) || (c =? 13) || (c =? 32)
  || (c =? 160) || (c =? 5760) || ((8192 <=? c) && (c <=? 8202))
  || (c =? 8232) || (c =? 8233) || (c =? 8239) || (c =? 8287)
  || (c =? 12288) || (c =? 65279).

Fixpoint trimStart (s : jsstring) : jsstring :=
  match s with
  | c :: s' => if isWhiteSpace c then trimStart s' else s
  | [] => []
  end.

Definition trimEnd (s : jsstring) : jsstring := rev (trimStart (rev s)).

Definition trim (s : jsstring) : jsstring := trimEnd (trimStart s).

(** ToInt32: wrap an integer to the signed 32-bit range. *)
Definition toInt32 (n : Z) : Z := (n + 2 ^ 31) mod 2 ^ 32 - 2 ^ 31.

(** [x << k] on a number that holds an integer. *)
Definition shl (x k : Z) : Z := toInt32 (Z.shiftl (toInt32 x) k).

(** [x & y] on numbers that hold integers. *)
Definition and32 (x y : Z) : Z := toInt32 (Z.land (toInt32 x) (toInt32 y)).

Definition digit36 (d : Z) : Z := if d <? 10 then 48 + d else 87 + d.

Fixpoint toString36_digits (fuel : nat) (n : Z) (acc : jsstring) : jsstring :=
  match fuel with
  | O => acc
  | S fuel' =>
      let acc' := digit36 (n mod 36) :: acc in
      if n <? 36 then acc' else toString36_digits fuel' (n / 36) acc'
  end.

(** [n.toString(36)] for an integer [n >= 0]; a number below [2^k] has at
    most [k] digits. *)
Definition toString36 (n : Z) : jsstring :=
  toString36_digits (S (Z.to_nat (Z.log2 n))) n [].

(** [Math.round]: the nearest integer, ties towards plus infinity. *)
Definition round (x : Q) : Z := Qfloor (x + (1 # 2)).

(** [a.slice(0, end)] for an integer [end]: a negative [end] counts from
    the end of the array. *)
Definition slice0 {A} (l : list A) (e : Z) : list A :=
  let len := Z.of_nat (length l) in
  take (Z.to_nat (if e <? 0 then Z.max (len + e) 0 else Z.min e len)) l.

(** [!x] for an optional number: unset and zero are falsy. *)
Definition falsyZ (x : option Z) : bool :=
  match x with
  | None => true
  | Some v => v =? 0
  end.

Definition falsyQ (x : option Q) : bool :=
  match x with
  | None => true
  | Some v => Qeq_bool v 0
  end.

End JS.

Import JS.

(** ** Data model *)

Record AnkiCard := mkCard {
  id : jsstring;
  front : jsstring;
  back : jsstring;
  sourceFile : jsstring;
  position : Z;
  lastReviewed : option Z;
  nextReview : option Z;
  easeFactor : option Q;
  interval : option Z;
  reviewCount : option Z
}.

Record AnkiData := mkData {
  timestamp : Z;
  totalCards : Z;
  cards : list AnkiCard
}.

Record AnkiPluginSettings := mkSettings {
  cardsPerSession : Z;
  newCardsPerDay : Z;
  reviewsPerDay : Z;
  showSourceFile : bool;
  enableMarkdownRendering : bool;
  easyBonus : Q;
  intervalModifier : Q;
  maxInterval : Z;
  darkModeButtons : bool;
  enableAutomaticIndexing : bool
}.

Definition DEFAULT_SETTINGS : AnkiPluginSettings :=
  {| cardsPerSession := 5;
     newCardsPerDay := 10;
     reviewsPerDay := 50;
     showSourceFile := true;
     enableMarkdownRendering := true;
     easyBonus := 1.3;
     intervalModifier := 1.0;
     maxInterval := 365;
     darkModeButtons := true;
     enableAutomaticIndexing := true |}.

(** ** Card parser and identity hasher *)

(** The opening fence with its line break, the closing fence with the line
    break before it, the question/answer separator line and the blank line
    of the three regular expressions of [findAnkiCardsInContent]. *)
Definition fenceOpen : jsstring := str "```anki" ++ [LF].
Definition fenceClose : jsstring := LF :: str "```".
Definition qaSeparator : jsstring := [LF; 63; LF].
Definition blankLine : jsstring := [LF; LF].

(** The loop [while ((match = ankiBlockRegex.exec(content)) !== null)]:
    every match as [(match.index, match[1])]. A match starts at the first
    opening fence at or after [lastIndex]; the lazy group stops at the first
    closing fence behind it. When an opening fence has no closing fence, no
    later start can match either and [exec] answers [null]. [skip] is the
    distance to [lastIndex]. *)
Fixpoint ankiBlocks (s : jsstring) (index : Z) (skip : nat) {struct s}
  : list (Z * jsstring) :=
  match s with
  | [] => []
  | _ :: s' =>
      match skip with
      | S k => ankiBlocks s' (index + 1) k
      | O =>
          if startsWith fenceOpen s then
            let rest := drop (length fenceOpen) s in
            match indexOf fenceClose rest with
            | Some j =>
                (index, take j rest)
                  :: ankiBlocks s' (index + 1)
                       (length fenceOpen + j + length fenceClose - 1)%nat
            | None => []
            end
          else ankiBlocks s' (index + 1) O
      end
  end.

(** Sticky matcher of [/\n\n(?=[\s\S]+?\n\?\n)/]: a blank line, and behind it
    at least one code unit followed somewhere by a separator line. *)
Definition cardBoundary (s : jsstring) : option nat :=
  if startsWith blankLine s && bool_decide (is_Some (indexOf qaSeparator (drop 3 s)))
  then Some 2%nat else None.

(** Sticky matcher of [/\n\?\n/]. *)
Definition separatorLine (s : jsstring) : option nat :=
  if startsWith qaSeparator s then Some 3%nat else None.

Definition hashStep (hash char : Z) : Z :=
  let hash := shl hash 5 - hash + char in
  and32 hash hash.

Definition generateCardId (front back sourceFile : jsstring) : jsstring :=
  let contentString := front ++ [124] ++ back ++ [124] ++ sourceFile in
  let hash := fold_left hashStep contentString 0 in
  str "card_" ++ toString36 (Z.abs hash).

(** The object literal pushed for an accepted sub-block: the scheduling
    fields are absent. *)
Definition newCard (front back fileName : jsstring) (position : Z) : AnkiCard :=
  {| id := generateCardId front back fileName;
     front := front;
     back := back;
     sourceFile := fileName;
     position := position;
     lastReviewed := None;
     nextReview := None;
     easeFactor := None;
     interval := None;
     reviewCount := None |}.

(** The body of [for (const cardContent of cardContents)]: the cards pushed
    for one sub-block (none or one). *)
Definition cardsOfSubBlock (fileName : jsstring) (position : Z)
           (cardContent : jsstring) : list AnkiCard :=
  match split separatorLine cardContent with
  | [part0; part1] => [newCard (trim part0) (trim part1) fileName position]
  | _ => []
  end.

Definition cardsOfBlock (fileName : jsstring) (m : Z * jsstring) : list AnkiCard :=
  let position := m.1 in
  let blockContent := m.2 in
  let cardContents := split cardBoundary blockContent in
  cardContents ≫= cardsOfSubBlock fileName position.

Definition findAnkiCardsInContent (content fileName : jsstring) : list AnkiCard :=
  ankiBlocks content 0 O ≫= cardsOfBlock fileName.

(** ** Plugin state and persistence *)

(** The object the host keeps for the plugin ([loadData]/[saveData]): the
    settings and the card store. *)
Record PluginData := mkPluginData {
  data_settings : option AnkiPluginSettings;
  data_cards : option AnkiData
}.

(** [dataFile] is what [loadData] answers ([None] for [null]); [saved] lists
    the arguments of the calls to [saveData], the latest first. *)
Record Plugin := mkPlugin {
  settings : AnkiPluginSettings;
  cardData : option AnkiData;
  dataFile : option PluginData;
  saved : list PluginData
}.

Definition loadCardData (p : Plugin) : Plugin :=
  {| settings := settings p;
     cardData := dataFile p ≫= data_cards;
     dataFile := dataFile p;
     saved := saved p |}.

Definition saveCardData (cards : AnkiData) (p : Plugin) : Plugin :=
  let data := default (mkPluginData None None) (dataFile p) in
  let data := {| data_settings := data_settings data; data_cards := Some cards |} in
  {| settings := settings p;
     cardData := Some cards;
     dataFile := Some data;
     saved := data :: saved p |}.

(** [now] stands for the clock reading that [new Date().toISOString()]
    renders. *)
Definition saveCardsToJson (now : Z) (cards : list AnkiCard) (p : Plugin) : Plugin :=
  let cardData :=
    {| timestamp := now; totalCards := Z.of_nat (length cards); cards := cards |} in
  saveCardData cardData p.

(** The cards of the persisted store, as the next [loadCardData] sees them. *)
Definition storedCards (p : Plugin) : list AnkiCard :=
  match dataFile p ≫= data_cards with
  | Some d => cards d
  | None => []
  end.

(** ** Card store merger *)

(** A markdown file of the vault: [read] is [None] when [vault.read]
    throws. *)
Record MarkdownFile := mkFile {
  basename : jsstring;
  read : option jsstring
}.

(** [existingCards[card.id] = card] for every stored card, in order: a later
    card with the same id replaces an earlier one. Every id is made by
    [generateCardId] and starts with [card_], so no key meets a property that
    a JavaScript object inherits. *)
Definition lookupById (cards : list AnkiCard) : gmap jsstring AnkiCard :=
  foldl (fun existingCards card => <[id card := card]> existingCards) ∅ cards.

(** The body of [cardsInFile.forEach]. *)
Definition mergeCard (existingCards : gmap jsstring AnkiCard) (card : AnkiCard)
  : AnkiCard :=
  match existingCards !! id card with
  | Some existingCard =>
      {| id := id card; front := front card; back := back card;
         sourceFile := sourceFile card; position := position card;
         lastReviewed := lastReviewed existingCard;
         nextReview := nextReview existingCard;
         easeFactor := easeFactor existingCard;
         interval := interval existingCard;
         reviewCount := reviewCount existingCard |}
  | None =>
      {| id := id card; front := front card; back := back card;
         sourceFile := sourceFile card; position := position card;
         lastReviewed := lastReviewed card;
         nextReview := nextReview card;
         easeFactor := Some 2.5%Q;
         interval := Some 0;
         reviewCount := Some 0 |}
  end.

(** The body of [for (const file of files)]: a file that cannot be read, or
    that holds no card, leaves [allCards] as it is. *)
Definition indexFile (existingCards : gmap jsstring AnkiCard)
           (allCards : list AnkiCard) (file : MarkdownFile) : list AnkiCard :=
  match read file with
  | Some content =>
      let cardsInFile := findAnkiCardsInContent content (basename file) in
      if (0 <? Z.of_nat (length cardsInFile)) then
        allCards ++ (mergeCard existingCards <$> cardsInFile)
      else allCards
  | None => allCards
  end.

Definition scanVault (existingCards : gmap jsstring AnkiCard)
           (files : list MarkdownFile) : list AnkiCard :=
  foldl (indexFile existingCards) [] files.

Definition indexAnkiCards (files : list MarkdownFile) (now : Z) (p : Plugin) : Plugin :=
  let p := loadCardData p in
  let existingCards :=
    match cardData p with
    | Some d => lookupById (cards d)
    | None => ∅
    end in
  let allCards := scanVault existingCards files in
  if (0 <? Z.of_nat (length allCards)) then saveCardsToJson now allCards p
  else p.

(** ** Review selector *)

Inductive ReviewOutcome :=
| NoIndexedCards                     (* the notice "No indexed cards found" *)
| NoCardsAvailable                   (* [NoCardsModal] is opened *)
| ReviewSession (cardsToReview : list AnkiCard).   (* [CardReviewModal] *)

(** [!card.nextReview || card.nextReview <= now] *)
Definition isDue (now : Z) (card : AnkiCard) : bool :=
  falsyZ (nextReview card)
  || match nextReview card with Some t => t <=? now | None => false end.

(** [!card.lastReviewed] *)
Definition neverReviewed (card : AnkiCard) : bool := falsyZ (lastReviewed card).

(** The value of [dueCards] behind the if/else of [reviewCards]. *)
Definition reviewPool (s : AnkiPluginSettings) (now : Z) (cards : list AnkiCard)
  : list AnkiCard :=
  let dueCards := List.filter (isDue now) cards in
  if (Z.of_nat (length dueCards) =? 0) then
    slice0 (List.filter neverReviewed cards) (newCardsPerDay s)
  else slice0 dueCards (reviewsPerDay s).

Section Selector.

(** [[...array].sort(() => 0.5 - Math.random())]: the order the engine's
    sort leaves the copy in, for the comparison outcomes drawn. *)
Variable sortRandom : list AnkiCard -> list AnkiCard.

Definition getRandomSubset (array : list AnkiCard) (size : Z) : list AnkiCard :=
  let shuffled := sortRandom array in
  slice0 shuffled size.

Definition reviewCards (now : Z) (p : Plugin) : Plugin * ReviewOutcome :=
  let p := loadCardData p in
  match cardData p with
  | None => (p, NoIndexedCards)
  | Some d =>
      if (Z.of_nat (length (cards d)) =? 0) then (p, NoIndexedCards)
      else
        let dueCards := reviewPool (settings p) now (cards d) in
        if (Z.of_nat (length dueCards) =? 0) then (p, NoCardsAvailable)
        else
          let reviewSize :=
            Z.min (cardsPerSession (settings p)) (Z.of_nat (length dueCards)) in
          (p, ReviewSession (getRandomSubset dueCards reviewSize))
  end.

End Selector.

Definition cardsToReview (o : ReviewOutcome) : list AnkiCard :=
  match o with
  | ReviewSession l => l
  | _ => []
  end.

(** ** SRS scheduler *)

(** [if (!x) x = d] followed by a read of [x]. *)
Definition orDefaultQ (x : option Q) (d : Q) : Q :=
  if falsyQ x then d else default d x.

Definition orDefaultZ (x : option Z) (d : Z) : Z :=
  if falsyZ x then d else default d x.

Definition millisecondsPerDay : Z := 24 * 60 * 60 * 1000.

(** The first [switch]: a rating other than 1, 2, 3 meets no case. *)
Definition updateEase (s : AnkiPluginSettings) (easeFactor : Q) (difficultyRating : Z) : Q :=
  if difficultyRating =? 1 then Qmax 1.3 (easeFactor - 0.15)
  else if difficultyRating =? 2 then easeFactor
  else if difficultyRating =? 3 then Qmin 2.5 (easeFactor + 0.15 * easyBonus s)
  else easeFactor.

(** [easeFactor] is the ease factor after [updateEase]. *)
Definition updateInterval (s : AnkiPluginSettings) (interval : Z) (easeFactor : Q)
           (difficultyRating : Z) : Z :=
  if interval =? 0 then
    if difficultyRating =? 1 then 1
    else if difficultyRating =? 2 then 3
    else if difficultyRating =? 3 then 7
    else interval
  else
    let interval := round (inject_Z interval * easeFactor * intervalModifier s) in
    Z.min interval (maxInterval s).

Definition calculateNextReview (s : AnkiPluginSettings) (now : Z)
           (card : AnkiCard) (difficultyRating : Z) : AnkiCard :=
  let easeFactor0 := orDefaultQ (easeFactor card) 2.5 in
  let interval0 := orDefaultZ (interval card) 0 in
  let reviewCount0 := orDefaultZ (reviewCount card) 0 in
  let easeFactor1 := updateEase s easeFactor0 difficultyRating in
  let interval1 := updateInterval s interval0 easeFactor1 difficultyRating in
  {| id := id card; front := front card; back := back card;
     sourceFile := sourceFile card; position := position card;
     lastReviewed := Some now;
     nextReview := Some (now + interval1 * millisecondsPerDay);
     easeFactor := Some easeFactor1;
     interval := Some interval1;
     reviewCount := Some (reviewCount0 + 1) |}.

(** A review: the rating given, the clock reading, and the settings in force
    at that moment. *)
Record Review := mkReview {
  rating : Z;
  clock : Z;
  inForce : AnkiPluginSettings
}.

(** The states of a card after each review of a sequence. *)
Fixpoint reviewHistory (card : AnkiCard) (reviews : list Review) : list AnkiCard :=
  match reviews with
  | [] => []
  | r :: reviews' =>
      let card' := calculateNextReview (inForce r) (clock r) card (rating r) in
      card' :: reviewHistory card' reviews'
  end.

(** [cards[cardIndex] = card] on the loaded store. *)
Definition replaceCard (d : AnkiData) (cardIndex : nat) (card : AnkiCard) : AnkiData :=
  {| timestamp := timestamp d; totalCards := totalCards d;
     cards := <[cardIndex := card]> (cards d) |}.

(** The card object is updated in place: the result carries it next to the
    plugin state. *)
Definition updateCardAfterReview (now : Z) (card : AnkiCard) (difficultyRating : Z)
           (p : Plugin) : Plugin * AnkiCard :=
  let card := calculateNextReview (settings p) now card difficultyRating in
  let p := loadCardData p in
  match cardData p with
  | None => (p, card)
  | Some d =>
      match list_find (fun c => id c = id card) (cards d) with
      | Some (cardIndex, _) => (saveCardData (replaceCard d cardIndex card) p, card)
      | None => (p, card)
      end
  end.

(** ** SRS scheduler in double precision *)

(** Every JavaScript number is an IEEE binary64 value. [Double] embeds the
    arithmetic of [calculateNextReview] on these values, operation by
    operation: a decimal literal is the nearest double, [*], [+] and [-]
    round to nearest, ties to even. The card and the settings are cut down
    to their numeric fields; the rating stays an integer, as the [switch]
    compares it with [===] against 1, 2 and 3. *)
Module Double.

(** [!x] on a number: NaN, [0] and [-0] are falsy. *)
Definition falsy (x : float) : bool := (is_nan x || (x =? 0))%float.

(** [if (!x) x = d] followed by a read of [x]; [None] is [undefined]. *)
Definition orDefault (x : option float) (d : float) : float :=
  match x with
  | Some v => if falsy v then d else v
  | None => d
  end.

(** [Math.max a b]: NaN if either is NaN; [+0] is larger than [-0]. *)
Definition mathMax (a b : float) : float :=
  if is_nan a || is_nan b then nan
  else if (a <? b)%float then b
  else if (b <? a)%float then a
  else match Prim2SF a with S754_zero true => b | _ => a end.

(** [Math.min a b]: NaN if either is NaN; [-0] is smaller than [+0]. *)
Definition mathMin (a b : float) : float :=
  if is_nan a || is_nan b then nan
  else if (a <? b)%float then a
  else if (b <? a)%float then b
  else match Prim2SF a with S754_zero false => b | _ => a end.

(** The double of an integer below [2^53] in absolute value. *)
Definition ofInteger (n : Z) : float :=
  if n <? 0 then (- of_uint63 (Uint63.of_Z (- n)))%float else of_uint63 (Uint63.of_Z n).

(** [Math.round x]: NaN, the infinities, the zeros and the integers are
    returned as they are; any other [x = +-m * 2^e] (with [e < 0]) goes to
    [floor (x + 1/2)], computed exactly, with [-0] for a negative [x] that
    rounds to zero. *)
Definition mathRound (x : float) : float :=
  match Prim2SF x with
  | S754_finite sign m e =>
      if 0 <=? e then x
      else
        let n := (2 * (if sign then Z.neg m else Z.pos m) + 2 ^ (- e)) / 2 ^ (- e + 1) in
        if n =? 0 then (if sign then (- 0)%float else 0%float) else ofInteger n
  | _ => x
  end.

Record AnkiPluginSettings := {
  easyBonus : float;
  intervalModifier : float;
  maxInterval : float
}.

Record AnkiCard := {
  lastReviewed : option float;
  nextReview : option float;
  easeFactor : option float;
  interval : option float;
  reviewCount : option float
}.

Definition millisecondsPerDay : float := (24 * 60 * 60 * 1000)%float.

(** The first [switch]. *)
Definition updateEase (s : AnkiPluginSettings) (easeFactor : float)
           (difficultyRating : Z) : float :=
  if difficultyRating =? 1 then mathMax 1.3 (easeFactor - 0.15)
  else if difficultyRating =? 2 then easeFactor
  else if difficultyRating =? 3 then mathMin 2.5 (easeFactor + 0.15 * easyBonus s)
  else easeFactor.

(** [card.interval === 0] holds for [0] only here: [-0] and NaN were
    replaced by [0] before. The product is taken from the left, each
    multiplication rounded. *)
Definition updateInterval (s : AnkiPluginSettings) (interval easeFactor : float)
           (difficultyRating : Z) : float :=
  if (interval =? 0)%float then
    if difficultyRating =? 1 then 1%float
    else if difficultyRating =? 2 then 3%float
    else if difficultyRating =? 3 then 7%float
    else interval
  else
    let interval := mathRound (interval * easeFactor * intervalModifier s) in
    mathMin interval (maxInterval s).

(** [now] is the reading of [Date.now()]. *)
Definition calculateNextReview (s : AnkiPluginSettings) (now : float) (card : AnkiCard)
           (difficultyRating : Z) : AnkiCard :=
  let easeFactor0 := orDefault (easeFactor card) 2.5 in
  let interval0 := orDefault (interval card) 0 in
  let reviewCount0 := orDefault (reviewCount card) 0 in
  let easeFactor' := updateEase s easeFactor0 difficultyRating in
  let interval' := updateInterval s interval0 easeFactor' difficultyRating in
  {| lastReviewed := Some now;
     nextReview := Some (now + interval' * millisecondsPerDay)%float;
     easeFactor := Some easeFactor';
     interval := Some interval';
     reviewCount := Some (reviewCount0 + 1)%float |}.

(** The numeric part of [DEFAULT_SETTINGS]. *)
Definition DEFAULT_SETTINGS : AnkiPluginSettings :=
  {| easyBonus := 1.3; intervalModifier := 1.0; maxInterval := 365 |}.

(** A card rated Good once, three days before its next review. *)
Definition dueAgain : AnkiCard :=
  {| lastReviewed := Some 1000%float; nextReview := Some 259201000%float;
     easeFactor := Some 2.5%float; interval := Some 3%float;
     reviewCount := Some 1%float |}.

(** A card with an interval of nine days, and settings that stretch the
    intervals by 1.4. *)
Definition dueAfterNine : AnkiCard :=
  {| lastReviewed := Some 1000%float; nextReview := Some 777601000%float;
     easeFactor := Some 2.5%float; interval := Some 9%float;
     reviewCount := Some 2%float |}.

Definition stretchedSettings : AnkiPluginSettings :=
  {| easyBonus := 1.3; intervalModifier := 1.4; maxInterval := 365 |}.

End Double.

(** ** Vocabulary of the properties and example data *)

(** The claim of the specification for one sub-block, in its words: the
    split on the separator line yields exactly two non-empty parts. *)
Definition spec_accepts (cardContent : jsstring) : Prop :=
  exists part0 part1,
    split separatorLine cardContent = [part0; part1]
    /\ part0 <> [] /\ part1 <> [].

(** A block whose only sub-block starts with the separator line. *)
Definition emptyFrontBlock : jsstring :=
  fenceOpen ++ qaSeparator ++ str "Paris" ++ fenceClose.

(** The same card in two documents, the second time behind a line of
    prose. *)
Definition franceCard : jsstring :=
  str "What is the capital of France?" ++ qaSeparator ++ str "Paris".
Definition franceFirst : jsstring := fenceOpen ++ franceCard ++ fenceClose.
Definition franceMoved : jsstring :=
  str "Some notes." ++ [LF] ++ fenceOpen ++ franceCard ++ fenceClose.

(** Two cards in one block, separated by a blank line before the second
    question. *)
Definition twoCardBlock : jsstring :=
  fenceOpen ++ franceCard ++ blankLine
    ++ str "What is the largest planet in our solar system?" ++ qaSeparator
    ++ str "Jupiter" ++ fenceClose.

Definition sameSchedule (card old : AnkiCard) : Prop :=
  lastReviewed card = lastReviewed old
  /\ nextReview card = nextReview old
  /\ easeFactor card = easeFactor old
  /\ interval card = interval old
  /\ reviewCount card = reviewCount old.

Definition freshSchedule (card : AnkiCard) : Prop :=
  easeFactor card = Some 2.5%Q
  /\ interval card = Some 0
  /\ reviewCount card = Some 0
  /\ lastReviewed card = None
  /\ nextReview card = None.

(** The merged cards one readable file contributes. *)
Definition mergedCardsOfFile (existingCards : gmap jsstring AnkiCard)
           (file : MarkdownFile) : list AnkiCard :=
  match read file with
  | Some content =>
      mergeCard existingCards <$> findAnkiCardsInContent content (basename file)
  | None => []
  end.

(** A persisted card of the example document, reviewed twice. *)
Definition franceReviewed : AnkiCard :=
  {| id := generateCardId (str "What is the capital of France?") (str "Paris") (str "Geo");
     front := str "What is the capital of France?";
     back := str "Paris";
     sourceFile := str "Geo";
     position := 40;
     lastReviewed := Some 1700000000000;
     nextReview := Some 1700259200000;
     easeFactor := Some 2.35%Q;
     interval := Some 3;
     reviewCount := Some 2 |}.

(** A store that holds one reviewed card, and a vault whose only file holds
    no card. *)
Definition storeWithFrance : Plugin :=
  {| settings := DEFAULT_SETTINGS;
     cardData := None;
     dataFile :=
       Some {| data_settings := Some DEFAULT_SETTINGS;
               data_cards :=
                 Some {| timestamp := 1700000000000; totalCards := 1;
                         cards := [franceReviewed] |} |};
     saved := [] |}.

Definition vaultWithoutCards : list MarkdownFile :=
  [ {| basename := str "Notes"; read := Some (str "No cards here.") |} ].

(** A review of a card that the store does not hold. *)
Definition strangerCard : AnkiCard :=
  newCard (str "Largest planet?") (str "Jupiter") (str "Astro") 0.

(** The pool of the specification, in its words: the due cards
    ([nextReview] unset or not after [now]) truncated to [reviewsPerDay],
    or, when no card is due, the never-reviewed cards ([lastReviewed] unset)
    truncated to [newCardsPerDay]. *)
Definition spec_isDue (now : Z) (card : AnkiCard) : bool :=
  match nextReview card with
  | None => true
  | Some t => t <=? now
  end.

Definition spec_neverReviewed (card : AnkiCard) : bool :=
  match lastReviewed card with
  | None => true
  | Some _ => false
  end.

Definition spec_pool (s : AnkiPluginSettings) (now : Z) (cards : list AnkiCard)
  : list AnkiCard :=
  match List.filter (spec_isDue now) cards with
  | [] => take (Z.to_nat (newCardsPerDay s)) (List.filter spec_neverReviewed cards)
  | due => take (Z.to_nat (reviewsPerDay s)) due
  end.

(** Five cards that were never reviewed and are not due before the time
    stamp 2000. *)
Definition waitingCard (n : Z) : AnkiCard :=
  {| id := str "card_" ++ toString36 n; front := str "Q"; back := str "A";
     sourceFile := str "Deck"; position := n;
     lastReviewed := None; nextReview := Some 2000;
     easeFactor := Some 2.5%Q; interval := Some 0; reviewCount := Some 0 |}.

Definition storeOfFive : Plugin :=
  {| settings :=
       {| cardsPerSession := 3; newCardsPerDay := 10; reviewsPerDay := 50;
          showSourceFile := true; enableMarkdownRendering := true;
          easyBonus := 1.3; intervalModifier := 1.0; maxInterval := 365;
          darkModeButtons := true; enableAutomaticIndexing := true |};
     cardData := None;
     dataFile :=
       Some {| data_settings := None;
               data_cards :=
                 Some {| timestamp := 1000; totalCards := 5;
                         cards := waitingCard <$> [1; 2; 3; 4; 5] |} |};
     saved := [] |}.

Definition ratingInRange (difficultyRating : Z) : Prop :=
  difficultyRating = 1 \/ difficultyRating = 2 \/ difficultyRating = 3.

Definition easeInBounds (card : AnkiCard) : Prop :=
  exists q, easeFactor card = Some q /\ (1.3 <= q <= 2.5)%Q.

(** The ease factor of a card before its first scheduler call: unset, or
    within the bounds. *)
Definition easeUnsetOrInBounds (card : AnkiCard) : Prop :=
  easeFactor card = None \/ easeInBounds card.

Definition documentedReview (r : Review) : Prop :=
  ratingInRange (rating r)
  /\ (1 <= easyBonus (inForce r) <= 2)%Q.

(** Hard, Easy, Good, Hard on a fresh card, under the default settings. *)
Definition fourReviews : list Review :=
  [ mkReview 1 1000 DEFAULT_SETTINGS; mkReview 3 2000 DEFAULT_SETTINGS;
    mkReview 2 3000 DEFAULT_SETTINGS; mkReview 1 4000 DEFAULT_SETTINGS ].

(** The card of the example: interval 3, ease factor 2.5. *)
Definition dueAgain : AnkiCard :=
  {| id := id strangerCard; front := front strangerCard; back := back strangerCard;
     sourceFile := sourceFile strangerCard; position := 0;
     lastReviewed := Some 1000; nextReview := Some 259201000;
     easeFactor := Some 2.5%Q; interval := Some 3; reviewCount := Some 1 |}.

(** ** Settings, forced review and the card list *)

(** [loadSettings]: the stored settings laid over [DEFAULT_SETTINGS]. A
    stored settings object holds every key here, as every object written by
    [saveSettings] does, so it replaces the defaults as a whole. *)
Definition loadSettings (p : Plugin) : Plugin :=
  {| settings := default DEFAULT_SETTINGS (dataFile p ≫= data_settings);
     cardData := cardData p;
     dataFile := dataFile p;
     saved := saved p |}.

Definition saveSettings (p : Plugin) : Plugin :=
  let data := default (mkPluginData None None) (dataFile p) in
  let data := {| data_settings := Some (settings p); data_cards := data_cards data |} in
  {| settings := settings p;
     cardData := cardData p;
     dataFile := Some data;
     saved := data :: saved p |}.

(** [array.sort(compare)] for a comparator that orders the elements
    consistently: the sort is stable, so the result is the one arrangement
    in ascending order that keeps equal elements in their former order.
    Insertion from the right computes it. *)
Fixpoint insertSorted {A} (compare : A -> A -> Z) (x : A) (sorted : list A) : list A :=
  match sorted with
  | [] => [x]
  | y :: rest =>
      if compare x y <=? 0 then x :: sorted else y :: insertSorted compare x rest
  end.

Definition sortStable {A} (compare : A -> A -> Z) (array : list A) : list A :=
  foldr (insertSorted compare) [] array.

(** The comparator of [forceReviewCards]: cards without review history
    first, then the oldest review first. *)
Definition byLastReviewed (a b : AnkiCard) : Z :=
  if neverReviewed a && negb (neverReviewed b) then -1
  else if negb (neverReviewed a) && neverReviewed b then 1
  else if negb (neverReviewed a) && negb (neverReviewed b) then
    default 0 (lastReviewed a) - default 0 (lastReviewed b)
  else 0.

(** [NoCardsModal.forceReviewCards]; [NoIndexedCards] stands for its notice
    "No cards available to review." *)
Definition forceReviewCards (p : Plugin) : Plugin * ReviewOutcome :=
  let p := loadCardData p in
  match cardData p with
  | None => (p, NoIndexedCards)
  | Some d =>
      if (Z.of_nat (length (cards d)) =? 0) then (p, NoIndexedCards)
      else
        let allCards := sortStable byLastReviewed (cards d) in
        let reviewSize :=
          Z.min (cardsPerSession (settings p)) (Z.of_nat (length allCards)) in
        (p, ReviewSession (slice0 allCards reviewSize))
  end.

(** The comparator of [CardListModal.onOpen]: cards without a next review
    date first, then the earliest date first. *)
Definition byNextReview (a b : AnkiCard) : Z :=
  if falsyZ (nextReview a) && falsyZ (nextReview b) then 0
  else if falsyZ (nextReview a) then -1
  else if falsyZ (nextReview b) then 1
  else default 0 (nextReview a) - default 0 (nextReview b).

(** [sortedCards] of [CardListModal.onOpen]. *)
Definition sortedCards (cards : list AnkiCard) : list AnkiCard :=
  sortStable byNextReview cards.

(** [text.substring(0, maxLength)] clamps a negative bound to zero. *)
Definition truncateText (text : jsstring) (maxLength : Z) : jsstring :=
  if Z.of_nat (length text) <=? maxLength then text
  else take (Z.to_nat maxLength) text ++ str "...".

(** [s.replace(/\n/g, ' ')] *)
Definition replaceLineBreaks (s : jsstring) : jsstring :=
  (fun c => if c =? LF then 32 else c) <$> s.

(** The text of a list entry behind its number:
    [truncateText(card.front.replace(/\n/g, ' '), 50)]. *)
Definition listTitle (card : AnkiCard) : jsstring :=
  truncateText (replaceLineBreaks (front card)) 50.

(** ** Review session *)

(** The state of a [CardReviewModal]: the cards of the session, the index
    of the card shown, whether its answer is shown, and whether the modal is
    still open. *)
Record CardReviewModal := mkModal {
  sessionCards : list AnkiCard;
  currentIndex : nat;
  showingAnswer : bool;
  isOpen : bool
}.

(** The modal as constructed and opened by [reviewCards] and
    [forceReviewCards]. *)
Definition openModal (cards : list AnkiCard) : CardReviewModal :=
  {| sessionCards := cards; currentIndex := O; showingAnswer := false; isOpen := true |}.

(** [currentIndex < cards.length - 1] is compared in the integers: an empty
    session closes. *)
Definition showNextCard (m : CardReviewModal) : CardReviewModal :=
  if (Z.of_nat (currentIndex m) <? Z.of_nat (length (sessionCards m)) - 1) then
    {| sessionCards := sessionCards m; currentIndex := S (currentIndex m);
       showingAnswer := false; isOpen := isOpen m |}
  else
    {| sessionCards := sessionCards m; currentIndex := currentIndex m;
       showingAnswer := showingAnswer m; isOpen := false |}.

(** [rateCard]: the card object of the session is the one the scheduler
    updates in place, so the session holds the rated card afterwards. With no
    card at [currentIndex] the scheduler is handed [undefined] and throws:
    [None]. *)
Definition rateCard (now rating : Z) (st : CardReviewModal * Plugin)
  : option (CardReviewModal * Plugin) :=
  let m := st.1 in
  let p := st.2 in
  match sessionCards m !! currentIndex m with
  | None => None
  | Some currentCard =>
      let updated := updateCardAfterReview now currentCard rating p in
      Some (showNextCard
              {| sessionCards := <[currentIndex m := updated.2]> (sessionCards m);
                 currentIndex := currentIndex m;
                 showingAnswer := showingAnswer m;
                 isOpen := isOpen m |},
            updated.1)
  end.

(** One rating after the other, each with the clock reading of its click. *)
Fixpoint rateAll (ratings : list (Z * Z)) (st : CardReviewModal * Plugin)
  : option (CardReviewModal * Plugin) :=
  match ratings with
  | [] => Some st
  | (now, rating) :: rest =>
      match rateCard now rating st with
      | Some st' => rateAll rest st'
      | None => None
      end
  end.

(** ** Vocabulary of the further properties *)

(** [pieces.join(sep)] *)
Fixpoint joinWith (sep : jsstring) (pieces : list jsstring) : jsstring :=
  match pieces with
  | [] => []
  | piece :: rest =>
      match rest with
      | [] => piece
      | _ :: _ => piece ++ sep ++ joinWith sep rest
      end
  end.

(** A text that neither starts nor ends with white space. *)
Definition noOuterWhiteSpace (t : jsstring) : Prop :=
  (forall c t', t = c :: t' -> isWhiteSpace c = false)
  /\ (forall c t', t = t' ++ [c] -> isWhiteSpace c = false).

Definition allWhiteSpace (w : jsstring) : Prop :=
  Forall (fun c => isWhiteSpace c = true) w.

(** The polynomial hash with multiplier 31 over the code units, before any
    wrap-around. *)
Definition polynomial31 (s : jsstring) : Z :=
  fold_left (fun h c => 31 * h + c) s 0.

(** The value of a base-36 digit and of a digit string: [parseInt(s, 36)]
    on lower-case digits. *)
Definition digitValue36 (d : Z) : Z := if d <? 58 then d - 48 else d - 87.

Definition parseInt36 (s : jsstring) : Z :=
  fold_left (fun v d => 36 * v + digitValue36 d) s 0.

(** The hash that [generateCardId] renders. *)
Definition contentHash (front back sourceFile : jsstring) : Z :=
  fold_left hashStep (front ++ [124] ++ back ++ [124] ++ sourceFile) 0.

(** The cards parsed from the readable files of the vault, before the
    merge. *)
Definition parsedCardsOfFile (file : MarkdownFile) : list AnkiCard :=
  match read file with
  | Some content => findAnkiCardsInContent content (basename file)
  | None => []
  end.

(** The count kept beside the cards is their number. *)
Definition countMatches (p : Plugin) : Prop :=
  match dataFile p ≫= data_cards with
  | Some d => totalCards d = Z.of_nat (length (cards d))
  | None => True
  end.

(** A card as the plugin leaves it in the store: ease factor, interval and
    review count are set, and a card without review date has no next review
    date either. *)
Definition initialized (card : AnkiCard) : Prop :=
  is_Some (easeFactor card) /\ is_Some (interval card) /\ is_Some (reviewCount card)
  /\ (neverReviewed card = true -> falsyZ (nextReview card) = true).

(** A list in ascending order of a comparator: no element is followed,
    anywhere behind it, by one the comparator puts before it. *)
Fixpoint ascending {A} (compare : A -> A -> Z) (l : list A) : Prop :=
  match l with
  | [] => True
  | x :: rest => Forall (fun y => compare x y <= 0) rest /\ ascending compare rest
  end.

(** The time stamp a comparator reads from a card with a date. *)
Definition reviewedAt (card : AnkiCard) : Z := default 0 (lastReviewed card).
Definition dueAt (card : AnkiCard) : Z := default 0 (nextReview card).

(** The scheduling numbers of a card that has them. *)
Definition easeOf (card : AnkiCard) : Q := default 0%Q (easeFactor card).
Definition intervalOf (card : AnkiCard) : Z := default 0 (interval card).

(** The interval of a card is not negative (or unset). *)
Definition intervalNotNegative (card : AnkiCard) : Prop :=
  match interval card with
  | Some days => 0 <= days
  | None => True
  end.

(** A store that holds the same card twice, as a note with the card written
    twice gives it. *)
Definition twinCard : AnkiCard :=
  mergeCard ∅ (newCard (str "What is the capital of France?") (str "Paris") (str "Geo") 0).

Definition storeOfTwins : Plugin :=
  {| settings := DEFAULT_SETTINGS;
     cardData := None;
     dataFile :=
       Some {| data_settings := None;
               data_cards :=
                 Some {| timestamp := 1700000000000; totalCards := 2;
                         cards := [twinCard; twinCard] |} |};
     saved := [] |}.

(** A digit of radix 36: [0-9a-z]. *)
Definition isDigit36 (c : Z) : Prop := 48 <= c <= 57 \/ 97 <= c <= 122.

(** The ratings that reach [updateCardAfterReview] one after the other,
    each with its clock reading, its card and its rating. *)
Definition writeBacks (ratings : list (Z * AnkiCard * Z)) (p : Plugin) : Plugin :=
  foldl (fun p r => (updateCardAfterReview r.1.1 r.1.2 r.2 p).1) p ratings.

(** * Properties *)

(** ** Card parser *)

Lemma cardsOfSubBlock_two fileName position cardContent part0 part1 :
  split separatorLine cardContent = [part0; part1] ->
  cardsOfSubBlock fileName position cardContent
  = [newCard (trim part0) (trim part1) fileName position].
Proof. intros Hparts. unfold cardsOfSubBlock. now rewrite Hparts. Qed.

Lemma cardsOfSubBlock_other fileName position cardContent :
  length (split separatorLine cardContent) <> 2%nat ->
  cardsOfSubBlock fileName position cardContent = [].
Proof.
  intros Hlen. unfold cardsOfSubBlock.
  destruct (split separatorLine cardContent) as [|a [|b [|c parts]]];
    simpl in Hlen; congruence.
Qed.

Lemma cardsOfSubBlock_inv fileName position cardContent card :
  card ∈ cardsOfSubBlock fileName position cardContent ->
  exists part0 part1,
    split separatorLine cardContent = [part0; part1]
    /\ card = newCard (trim part0) (trim part1) fileName position.
Proof.
  unfold cardsOfSubBlock.
  destruct (split separatorLine cardContent) as [|a [|b [|c parts]]];
    intros Hin; try (now apply elem_of_nil in Hin).
  apply list_elem_of_singleton in Hin. eauto.
Qed.

(** Where a card of the result comes from: a fenced block of the document,
    a sub-block of it, and the two parts of that sub-block. *)
Lemma findAnkiCardsInContent_elem content fileName card :
  card ∈ findAnkiCardsInContent content fileName <->
  exists position blockContent cardContent part0 part1,
    (position, blockContent) ∈ ankiBlocks content 0 O
    /\ cardContent ∈ split cardBoundary blockContent
    /\ split separatorLine cardContent = [part0; part1]
    /\ card = newCard (trim part0) (trim part1) fileName position.
Proof.
  unfold findAnkiCardsInContent. rewrite list_elem_of_bind. split.
  - intros ([position blockContent] & Hcard & Hblock).
    unfold cardsOfBlock in Hcard. simpl in Hcard.
    apply list_elem_of_bind in Hcard as (cardContent & Hcard & Hsub).
    apply cardsOfSubBlock_inv in Hcard as (part0 & part1 & Hparts & ->).
    now exists position, blockContent, cardContent, part0, part1.
  - intros (position & blockContent & cardContent & part0 & part1
            & Hblock & Hsub & Hparts & ->).
    exists (position, blockContent). split; [|exact Hblock].
    unfold cardsOfBlock. simpl. apply list_elem_of_bind.
    exists cardContent. split; [|exact Hsub].
    rewrite (cardsOfSubBlock_two _ _ _ _ _ Hparts). apply list_elem_of_here.
Qed.

(** The block of the manual, read from the note [Geo]: one card. *)
Example parse_france_card :
  findAnkiCardsInContent franceFirst (str "Geo")
  = [newCard (str "What is the capital of France?") (str "Paris") (str "Geo") 0].
Proof. vm_compute. reflexivity. Qed.

(** Two cards in one block give two cards, both at the offset of the
    block. *)
Example parse_two_cards :
  findAnkiCardsInContent twoCardBlock (str "Geo")
  = [newCard (str "What is the capital of France?") (str "Paris") (str "Geo") 0;
     newCard (str "What is the largest planet in our solar system?") (str "Jupiter")
             (str "Geo") 0].
Proof. vm_compute. reflexivity. Qed.

(** A block without a separator line gives no card. *)
Example parse_without_separator :
  findAnkiCardsInContent (fenceOpen ++ str "Just a sentence." ++ fenceClose) (str "Geo")
  = [].
Proof. vm_compute. reflexivity. Qed.

(** Every id starts with the tag [card_]. *)
Lemma generateCardId_tag front back sourceFile :
  startsWith (str "card_") (generateCardId front back sourceFile) = true.
Proof. reflexivity. Qed.

(** A freshly parsed card: its id is the hash of its own three fields, its
    source is the file it was read from, and it has no scheduling state. *)
Lemma parsed_card_shape content fileName card :
  card ∈ findAnkiCardsInContent content fileName ->
  id card = generateCardId (front card) (back card) (sourceFile card)
  /\ sourceFile card = fileName
  /\ lastReviewed card = None /\ nextReview card = None
  /\ easeFactor card = None /\ interval card = None /\ reviewCount card = None.
Proof.
  intros Hin. apply findAnkiCardsInContent_elem in Hin
    as (position & blockContent & cardContent & part0 & part1 & _ & _ & _ & ->).
  now repeat split.
Qed.

(** C6, as the specification states it, fails: a sub-block whose split has
    two parts is indexed also when a part is empty. Here the front is empty
    and the card is emitted all the same. *)
Lemma empty_part_is_indexed :
  split separatorLine (qaSeparator ++ str "Paris") = [[]; str "Paris"]
  /\ findAnkiCardsInContent emptyFrontBlock (str "Geo")
     = [newCard [] (str "Paris") (str "Geo") 0]
  /\ ~ (forall fileName position cardContent,
          cardsOfSubBlock fileName position cardContent <> []
          <-> spec_accepts cardContent).
Proof.
  split; [reflexivity|]. split; [vm_compute; reflexivity|].
  intros Hclaim.
  destruct (Hclaim (str "Geo") 0 (qaSeparator ++ str "Paris")) as [Hemit _].
  destruct Hemit as (part0 & part1 & Hparts & Hfront & _).
  - vm_compute. discriminate.
  - vm_compute in Hparts. congruence.
Qed.

(** C6 (amended): a sub-block of a fenced anki block is emitted as a card
    exactly when splitting it on the separator line yields two parts, empty
    or not; the card carries the two trimmed parts. Every other number of
    parts yields no card, and the parser is total: nothing is raised. *)
Theorem subblock_indexed_iff_two_parts (content fileName : jsstring) :
  (forall position cardContent,
      (cardsOfSubBlock fileName position cardContent <> []
       <-> length (split separatorLine cardContent) = 2%nat)
      /\ (forall part0 part1,
             split separatorLine cardContent = [part0; part1] ->
             cardsOfSubBlock fileName position cardContent
             = [newCard (trim part0) (trim part1) fileName position])
      /\ (length (split separatorLine cardContent) <> 2%nat ->
          cardsOfSubBlock fileName position cardContent = []))
  /\ (forall card,
         card ∈ findAnkiCardsInContent content fileName <->
         exists position blockContent cardContent part0 part1,
           (position, blockContent) ∈ ankiBlocks content 0 O
           /\ cardContent ∈ split cardBoundary blockContent
           /\ split separatorLine cardContent = [part0; part1]
           /\ card = newCard (trim part0) (trim part1) fileName position).
Proof.
  split.
  - intros position cardContent. split; [|split].
    + split.
      * intros Hemit.
        destruct (decide (length (split separatorLine cardContent) = 2%nat))
          as [Hlen|Hlen]; [exact Hlen|].
        now apply (cardsOfSubBlock_other fileName position) in Hlen.
      * intros Hlen.
        destruct (split separatorLine cardContent) as [|a [|b [|c parts]]] eqn:Hparts;
          simpl in Hlen; try discriminate.
        rewrite (cardsOfSubBlock_two _ _ _ _ _ Hparts). discriminate.
    + apply cardsOfSubBlock_two.
    + apply cardsOfSubBlock_other.
  - apply findAnkiCardsInContent_elem.
Qed.

Lemma subblock_indexed_iff_two_parts_witness :
  split separatorLine franceCard
  = [str "What is the capital of France?"; str "Paris"]
  /\ cardsOfSubBlock (str "Geo") 0 franceCard
     = [newCard (str "What is the capital of France?") (str "Paris") (str "Geo") 0].
Proof.
  assert (Hparts : split separatorLine franceCard
                   = [str "What is the capital of France?"; str "Paris"])
    by reflexivity.
  split; [exact Hparts|].
  destruct (proj1 (subblock_indexed_iff_two_parts franceFirst (str "Geo")) 0 franceCard)
    as (_ & Htwo & _).
  rewrite (Htwo _ _ Hparts). reflexivity.
Defined.

(** ** Identity hasher *)

(** C9: the id of a parsed card is a function of its trimmed front, its
    trimmed back and its source file name alone. Two cards that agree on the
    three, found in any two documents at any positions, have the same id;
    a change of the front, of the back or of the file name can change it. *)
Theorem card_id_depends_on_content_only :
  (forall content1 fileName1 content2 fileName2 card1 card2,
      card1 ∈ findAnkiCardsInContent content1 fileName1 ->
      card2 ∈ findAnkiCardsInContent content2 fileName2 ->
      front card1 = front card2 ->
      back card1 = back card2 ->
      sourceFile card1 = sourceFile card2 ->
      id card1 = id card2)
  /\ generateCardId (str "Q") (str "A") (str "Geo")
     <> generateCardId (str "Q2") (str "A") (str "Geo")
  /\ generateCardId (str "Q") (str "A") (str "Geo")
     <> generateCardId (str "Q") (str "A2") (str "Geo")
  /\ generateCardId (str "Q") (str "A") (str "Geo")
     <> generateCardId (str "Q") (str "A") (str "Geo2").
Proof.
  split.
  - intros content1 fileName1 content2 fileName2 card1 card2 H1 H2 Hf Hb Hs.
    apply parsed_card_shape in H1 as (-> & _).
    apply parsed_card_shape in H2 as (-> & _).
    now rewrite Hf, Hb, Hs.
  - repeat split; vm_compute; discriminate.
Qed.

Lemma card_id_depends_on_content_only_witness :
  exists card1 card2,
    card1 ∈ findAnkiCardsInContent franceFirst (str "Geo")
    /\ card2 ∈ findAnkiCardsInContent franceMoved (str "Geo")
    /\ position card1 <> position card2
    /\ id card1 = id card2.
Proof.
  exists (newCard (str "What is the capital of France?") (str "Paris") (str "Geo") 0).
  exists (newCard (str "What is the capital of France?") (str "Paris") (str "Geo") 12).
  assert (H1 : newCard (str "What is the capital of France?") (str "Paris") (str "Geo") 0
               ∈ findAnkiCardsInContent franceFirst (str "Geo"))
    by (vm_compute; apply list_elem_of_here).
  assert (H2 : newCard (str "What is the capital of France?") (str "Paris") (str "Geo") 12
               ∈ findAnkiCardsInContent franceMoved (str "Geo"))
    by (vm_compute; apply list_elem_of_here).
  split; [exact H1|]. split; [exact H2|]. split; [simpl; lia|].
  exact (proj1 card_id_depends_on_content_only _ _ _ _ _ _ H1 H2
               eq_refl eq_refl eq_refl).
Defined.

(** ** Card store merger *)

Lemma lookupById_snoc cards card :
  lookupById (cards ++ [card]) = <[id card := card]> (lookupById cards).
Proof. unfold lookupById. now rewrite foldl_snoc. Qed.

Lemma lookupById_None cards k :
  (forall old, old ∈ cards -> id old <> k) -> lookupById cards !! k = None.
Proof.
  induction cards as [|card cards IH] using rev_ind; intros Hne.
  - apply lookup_empty.
  - rewrite lookupById_snoc, lookup_insert_ne.
    + apply IH. intros old Hold. apply Hne, elem_of_app. now left.
    + apply Hne, elem_of_app. right. apply list_elem_of_here.
Qed.

(** The lookup answers the last stored card with the id asked for. *)
Lemma lookupById_last earlier old later k :
  id old = k ->
  (forall o, o ∈ later -> id o <> k) ->
  lookupById (earlier ++ old :: later) !! k = Some old.
Proof.
  intros Hid. induction later as [|card later IH] using rev_ind; intros Hne.
  - rewrite lookupById_snoc, <- Hid. apply lookup_insert_eq.
  - replace (earlier ++ old :: later ++ [card])
      with ((earlier ++ old :: later) ++ [card]) by now rewrite <- app_assoc.
    rewrite lookupById_snoc, lookup_insert_ne.
    + apply IH. intros o Ho. apply Hne, elem_of_app. now left.
    + apply Hne, elem_of_app. right. apply list_elem_of_here.
Qed.

Lemma lookupById_Some cards k old :
  lookupById cards !! k = Some old ->
  exists earlier later,
    cards = earlier ++ old :: later
    /\ id old = k
    /\ forall o, o ∈ later -> id o <> k.
Proof.
  induction cards as [|card cards IH] using rev_ind; intros Hlook.
  - unfold lookupById in Hlook. simpl in Hlook. now rewrite lookup_empty in Hlook.
  - rewrite lookupById_snoc in Hlook.
    destruct (decide (id card = k)) as [Heq|Hne].
    + rewrite <- Heq, lookup_insert_eq in Hlook. injection Hlook as ->.
      exists cards, []. repeat split; [exact Heq|].
      intros o Ho. now apply elem_of_nil in Ho.
    + rewrite lookup_insert_ne in Hlook by exact Hne.
      destruct (IH Hlook) as (earlier & later & -> & Hid & Hlater).
      exists earlier, (later ++ [card]). repeat split.
      * now rewrite <- app_assoc.
      * exact Hid.
      * intros o Ho. apply elem_of_app in Ho as [Ho|Ho]; [now apply Hlater|].
        apply list_elem_of_singleton in Ho. now subst o.
Qed.

Lemma indexFile_app existingCards allCards file :
  indexFile existingCards allCards file
  = allCards ++ mergedCardsOfFile existingCards file.
Proof.
  unfold indexFile, mergedCardsOfFile. destruct (read file) as [content|].
  - destruct (findAnkiCardsInContent content (basename file)) as [|card cardsInFile].
    + simpl. now rewrite app_nil_r.
    + reflexivity.
  - now rewrite app_nil_r.
Qed.

Lemma foldl_indexFile existingCards files allCards :
  foldl (indexFile existingCards) allCards files
  = allCards ++ (files ≫= mergedCardsOfFile existingCards).
Proof.
  revert allCards. induction files as [|file files IH]; intros allCards.
  - simpl. now rewrite app_nil_r.
  - simpl. rewrite IH, indexFile_app. now rewrite <- app_assoc.
Qed.

(** [allCards] at the end of the loop over the files. *)
Lemma scanVault_bind existingCards files :
  scanVault existingCards files = files ≫= mergedCardsOfFile existingCards.
Proof. unfold scanVault. now rewrite foldl_indexFile. Qed.

Lemma mergeCard_found existingCards card existingCard :
  existingCards !! id card = Some existingCard ->
  sameSchedule (mergeCard existingCards card) existingCard.
Proof. intros Hlook. unfold mergeCard. rewrite Hlook. now repeat split. Qed.

Lemma mergeCard_text existingCards card :
  id (mergeCard existingCards card) = id card
  /\ front (mergeCard existingCards card) = front card
  /\ back (mergeCard existingCards card) = back card
  /\ sourceFile (mergeCard existingCards card) = sourceFile card
  /\ position (mergeCard existingCards card) = position card.
Proof. unfold mergeCard. destruct (existingCards !! id card); now repeat split. Qed.

(** C1: in an indexing pass every freshly parsed card is merged against the
    persisted list. A parsed card whose id is the id of a persisted card
    receives the [lastReviewed], [nextReview], [easeFactor], [interval] and
    [reviewCount] of the persisted card with that id, unchanged (of the last
    one in the list, should the list hold the id more than once). A parsed
    card whose id matches no persisted card gets [easeFactor = 2.5],
    [interval = 0], [reviewCount = 0], and [lastReviewed] and [nextReview]
    stay unset. The text and provenance of the parsed card are kept. *)
Theorem merge_copies_or_initializes (persisted : list AnkiCard) (files : list MarkdownFile) :
  scanVault (lookupById persisted) files
  = files ≫= mergedCardsOfFile (lookupById persisted)
  /\ forall content fileName parsed,
      parsed ∈ findAnkiCardsInContent content fileName ->
      let merged := mergeCard (lookupById persisted) parsed in
      (id merged = id parsed /\ front merged = front parsed
       /\ back merged = back parsed /\ sourceFile merged = sourceFile parsed
       /\ position merged = position parsed)
      /\ (forall earlier old later,
             persisted = earlier ++ old :: later ->
             id old = id parsed ->
             (forall o, o ∈ later -> id o <> id parsed) ->
             sameSchedule merged old)
      /\ ((exists old, old ∈ persisted /\ id old = id parsed) ->
          exists old, old ∈ persisted /\ id old = id parsed /\ sameSchedule merged old)
      /\ (NoDup (id <$> persisted) ->
          forall old, old ∈ persisted -> id old = id parsed -> sameSchedule merged old)
      /\ ((forall old, old ∈ persisted -> id old <> id parsed) -> freshSchedule merged).
Proof.
  split; [apply scanVault_bind|].
  intros content fileName parsed Hparsed. cbv zeta.
  assert (Hlast : forall earlier old later,
             persisted = earlier ++ old :: later ->
             id old = id parsed ->
             (forall o, o ∈ later -> id o <> id parsed) ->
             sameSchedule (mergeCard (lookupById persisted) parsed) old).
  { intros earlier old later -> Hid Hlater.
    apply mergeCard_found. now apply lookupById_last. }
  split; [apply mergeCard_text|]. split; [exact Hlast|]. split; [|split].
  - intros (old & Hold & Hid).
    destruct (lookupById persisted !! id parsed) as [existingCard|] eqn:Hlook.
    + destruct (lookupById_Some _ _ _ Hlook) as (earlier & later & Hsplit & Hid' & Hlater).
      exists existingCard. split; [|split].
      * rewrite Hsplit. apply elem_of_app. right. apply list_elem_of_here.
      * exact Hid'.
      * now apply (Hlast earlier existingCard later).
    + exfalso. revert Hlook.
      destruct (list_elem_of_split _ _ Hold) as (l1 & l2 & ->).
      clear Hlast Hold. revert old Hid.
      induction l2 as [|card l2 IH] using rev_ind; intros old Hid.
      * rewrite lookupById_snoc, <- Hid, lookup_insert_eq. discriminate.
      * replace (l1 ++ old :: l2 ++ [card]) with ((l1 ++ old :: l2) ++ [card])
          by now rewrite <- app_assoc.
        rewrite lookupById_snoc.
        destruct (decide (id card = id parsed)) as [Heq|Hne].
        -- rewrite <- Heq, lookup_insert_eq. discriminate.
        -- rewrite lookup_insert_ne by exact Hne. now apply IH.
  - intros Hnodup old Hold Hid.
    destruct (list_elem_of_split _ _ Hold) as (earlier & later & Hsplit).
    apply (Hlast earlier old later Hsplit Hid).
    intros o Ho Hido. rewrite Hsplit, fmap_app, fmap_cons in Hnodup.
    apply NoDup_app in Hnodup as (_ & _ & Hnodup).
    apply NoDup_cons in Hnodup as (Hnotin & _).
    apply Hnotin. rewrite Hid, <- Hido. apply list_elem_of_fmap. now exists o.
  - intros Hnone. unfold mergeCard.
    rewrite (lookupById_None _ _ Hnone).
    apply parsed_card_shape in Hparsed as (_ & _ & Hlr & Hnr & _).
    now repeat split.
Qed.

Lemma merge_copies_or_initializes_witness :
  newCard (str "What is the capital of France?") (str "Paris") (str "Geo") 0
    ∈ findAnkiCardsInContent franceFirst (str "Geo")
  /\ sameSchedule
       (mergeCard (lookupById [franceReviewed])
          (newCard (str "What is the capital of France?") (str "Paris") (str "Geo") 0))
       franceReviewed.
Proof.
  assert (Hparsed :
            newCard (str "What is the capital of France?") (str "Paris") (str "Geo") 0
              ∈ findAnkiCardsInContent franceFirst (str "Geo"))
    by (vm_compute; apply list_elem_of_here).
  split; [exact Hparsed|].
  destruct (proj2 (merge_copies_or_initializes [franceReviewed] []) _ _ _ Hparsed)
    as (_ & Hlast & _).
  apply (Hlast [] franceReviewed []); [reflexivity|reflexivity|].
  intros o Ho. now apply elem_of_nil in Ho.
Defined.

Lemma existingCards_of_store (p : Plugin) :
  match cardData (loadCardData p) with
  | Some d => lookupById (cards d)
  | None => ∅
  end = lookupById (storedCards p).
Proof.
  unfold storedCards, loadCardData. simpl.
  now destruct (dataFile p ≫= data_cards).
Qed.

Lemma storedCards_saveCardsToJson now allCards p :
  storedCards (saveCardsToJson now allCards p) = allCards.
Proof. reflexivity. Qed.

Lemma storedCards_loadCardData p :
  storedCards (loadCardData p) = storedCards p
  /\ dataFile (loadCardData p) = dataFile p
  /\ saved (loadCardData p) = saved p.
Proof. now repeat split. Qed.

(** C7, as the specification states it, fails when the fresh parse yields no
    card: nothing is saved, and the cards of the previous store stay
    persisted. *)
Lemma empty_parse_keeps_old_cards :
  scanVault (lookupById (storedCards storeWithFrance)) vaultWithoutCards = []
  /\ storedCards (indexAnkiCards vaultWithoutCards 1700000500000 storeWithFrance)
     = [franceReviewed]
  /\ ~ (forall files now p old,
          old ∈ storedCards p ->
          id old ∉ (id <$> scanVault (lookupById (storedCards p)) files) ->
          old ∉ storedCards (indexAnkiCards files now p)).
Proof.
  split; [vm_compute; reflexivity|]. split; [vm_compute; reflexivity|].
  intros Hclaim.
  apply (Hclaim vaultWithoutCards 1700000500000 storeWithFrance franceReviewed).
  - apply list_elem_of_here.
  - vm_compute. intros Hin. now apply elem_of_nil in Hin.
  - vm_compute. apply list_elem_of_here.
Qed.

(** C7 (amended): when the fresh parse of an indexing pass yields at least
    one card, the persisted card list it produces is exactly the freshly
    parsed cards with their merged scheduling state, so no card of the
    previous store whose id is not among them remains. When the fresh parse
    yields no card, nothing is saved and the previous store stays as it
    was. *)
Theorem reindex_replaces_store_unless_empty
        (files : list MarkdownFile) (now : Z) (p : Plugin) :
  let fresh := scanVault (lookupById (storedCards p)) files in
  let p' := indexAnkiCards files now p in
  (fresh <> [] ->
   storedCards p' = fresh
   /\ forall old, old ∈ storedCards p ->
                  id old ∉ (id <$> fresh) -> id old ∉ (id <$> storedCards p'))
  /\ (fresh = [] ->
      storedCards p' = storedCards p
      /\ dataFile p' = dataFile p
      /\ saved p' = saved p).
Proof.
  cbv zeta. unfold indexAnkiCards. rewrite existingCards_of_store.
  destruct (scanVault (lookupById (storedCards p)) files) as [|card fresh] eqn:Hfresh.
  - split; [congruence|]. intros _. apply storedCards_loadCardData.
  - split; [|discriminate]. intros _.
    change (0 <? Z.of_nat (length (card :: fresh))) with true. cbv iota.
    rewrite storedCards_saveCardsToJson. split; [reflexivity|]. now intros old _ Hnew.
Qed.

Lemma reindex_replaces_store_unless_empty_witness :
  scanVault (lookupById (storedCards storeWithFrance))
            [ {| basename := str "Geo"; read := Some franceMoved |} ] <> []
  /\ storedCards (indexAnkiCards [ {| basename := str "Geo"; read := Some franceMoved |} ]
                                 1700000500000 storeWithFrance)
     = scanVault (lookupById (storedCards storeWithFrance))
                 [ {| basename := str "Geo"; read := Some franceMoved |} ].
Proof.
  assert (Hfresh : scanVault (lookupById (storedCards storeWithFrance))
                     [ {| basename := str "Geo"; read := Some franceMoved |} ] <> [])
    by (vm_compute; discriminate).
  split; [exact Hfresh|].
  exact (proj1 (proj1 (reindex_replaces_store_unless_empty
                         [ {| basename := str "Geo"; read := Some franceMoved |} ]
                         1700000500000 storeWithFrance) Hfresh)).
Defined.

(** ** Write-back after a review *)

Lemma calculateNextReview_id s now card difficultyRating :
  id (calculateNextReview s now card difficultyRating) = id card.
Proof. reflexivity. Qed.

(** C10: [updateCardAfterReview] on a card whose id matches no card of the
    loaded store performs no save and leaves the persisted store as it was.
    A save happens only when a stored card has the id, and then the first
    such entry, and no other, is replaced by the reviewed card. *)
Theorem write_back_only_when_found
        (now : Z) (card : AnkiCard) (difficultyRating : Z) (p : Plugin) :
  let card' := calculateNextReview (settings p) now card difficultyRating in
  let p' := (updateCardAfterReview now card difficultyRating p).1 in
  ((forall c, c ∈ storedCards p -> id c <> id card) ->
   saved p' = saved p /\ dataFile p' = dataFile p /\ storedCards p' = storedCards p)
  /\ (saved p' <> saved p -> exists c, c ∈ storedCards p /\ id c = id card)
  /\ (forall i c,
         storedCards p !! i = Some c ->
         id c = id card ->
         (forall j c', storedCards p !! j = Some c' -> (j < i)%nat -> id c' <> id card) ->
         storedCards p' = <[i := card']> (storedCards p)
         /\ length (saved p') = S (length (saved p))
         /\ (forall j, j <> i -> storedCards p' !! j = storedCards p !! j)).
Proof.
  cbv zeta. unfold updateCardAfterReview, storedCards, loadCardData. simpl.
  destruct (dataFile p ≫= data_cards) as [d|] eqn:Hstore.
  - destruct (list_find _ (cards d)) as [[cardIndex found]|] eqn:Hfind.
    + apply list_find_Some in Hfind as (Hlookup & Hid & Hfirst). simpl in Hid.
      split; [|split].
      * intros Hnone. exfalso. apply (Hnone found); [|exact Hid].
        apply list_elem_of_lookup. now exists cardIndex.
      * intros _. exists found. split; [|exact Hid].
        apply list_elem_of_lookup. now exists cardIndex.
      * intros i c Hi Hc Hbefore. simpl.
        assert (i = cardIndex) as ->.
        { destruct (Nat.lt_trichotomy i cardIndex) as [Hlt|[Heq|Hgt]]; [|exact Heq|].
          - exfalso. now apply (Hfirst i c).
          - exfalso. now apply (Hbefore cardIndex found). }
        split; [reflexivity|]. split; [reflexivity|].
        intros j Hj. now apply list_lookup_insert_ne.
    + apply list_find_None in Hfind. simpl. rewrite Hstore.
      split; [now intros _|]. split; [now intros Hsaved|].
      intros i c Hi Hc _. exfalso.
      rewrite Forall_forall in Hfind. apply (Hfind c); [|exact Hc].
      apply list_elem_of_lookup. now exists i.
  - simpl. rewrite Hstore. split; [now intros _|]. split; [now intros Hsaved|].
    intros i c Hi. now rewrite lookup_nil in Hi.
Qed.

Lemma write_back_only_when_found_witness :
  (forall c, c ∈ storedCards storeWithFrance -> id c <> id strangerCard)
  /\ saved (updateCardAfterReview 1700000500000 strangerCard 2 storeWithFrance).1
     = saved storeWithFrance.
Proof.
  assert (Hnone : forall c, c ∈ storedCards storeWithFrance -> id c <> id strangerCard).
  { intros c Hc. apply list_elem_of_singleton in Hc. subst c. vm_compute. discriminate. }
  split; [exact Hnone|].
  exact (proj1 (proj1 (write_back_only_when_found
                         1700000500000 strangerCard 2 storeWithFrance) Hnone)).
Defined.

(** ** Review selector *)

Lemma slice0_take {A} (l : list A) (e : Z) :
  0 <= e -> slice0 l e = take (Z.to_nat e) l.
Proof.
  intros He. unfold slice0.
  destruct (e <? 0) eqn:Hneg; [apply Z.ltb_lt in Hneg; lia|].
  destruct (Z.min_spec e (Z.of_nat (length l))) as [[_ ->]|[Hle ->]]; [reflexivity|].
  rewrite Nat2Z.id, firstn_all. symmetry. apply take_ge. lia.
Qed.

Lemma slice0_length {A} (l : list A) (e : Z) :
  0 <= e -> Z.of_nat (length (slice0 l e)) = Z.min e (Z.of_nat (length l)).
Proof. intros He. rewrite slice0_take, length_take by exact He. lia. Qed.

Lemma slice0_submseteq {A} (l : list A) (e : Z) : slice0 l e ⊆+ l.
Proof. unfold slice0. apply submseteq_take. Qed.

Lemma submseteq_keeps_NoDup {A} (l k : list A) : l ⊆+ k -> NoDup k -> NoDup l.
Proof.
  intros Hsub Hnodup. apply submseteq_Permutation in Hsub as (rest & Hperm).
  rewrite Hperm in Hnodup. now apply NoDup_app in Hnodup as (Hl & _).
Qed.

(** With time stamps after the epoch, the pool of the code is the pool of
    the specification. *)
Lemma reviewPool_as_specified s now cards :
  0 <= now -> 0 <= newCardsPerDay s -> 0 <= reviewsPerDay s ->
  (forall card, card ∈ cards -> lastReviewed card <> Some 0) ->
  reviewPool s now cards = spec_pool s now cards.
Proof.
  intros Hnow Hnew Hrev Hstamps. unfold reviewPool, spec_pool.
  assert (Hdue : List.filter (isDue now) cards = List.filter (spec_isDue now) cards).
  { apply List.filter_ext. intros card. unfold isDue, spec_isDue, falsyZ.
    destruct (nextReview card) as [t|]; [|reflexivity].
    destruct (t =? 0) eqn:Ht; [|reflexivity].
    apply Z.eqb_eq in Ht. subst t. simpl. symmetry. now apply Z.leb_le. }
  assert (Hnever : List.filter neverReviewed cards = List.filter spec_neverReviewed cards).
  { apply List.filter_ext_in. intros card Hcard. apply list_elem_of_In in Hcard.
    specialize (Hstamps card Hcard). unfold neverReviewed, spec_neverReviewed, falsyZ.
    destruct (lastReviewed card) as [t|]; [|reflexivity].
    apply Z.eqb_neq. congruence. }
  rewrite Hdue, Hnever.
  destruct (List.filter (spec_isDue now) cards) as [|card due].
  - simpl. now apply slice0_take.
  - change (Z.of_nat (length (card :: due)) =? 0) with false. cbv iota.
    now apply slice0_take.
Qed.

Section SelectorProperties.

Variable sortRandom : list AnkiCard -> list AnkiCard.

(** Whatever the comparisons drawn, sorting rearranges the copy. *)
Hypothesis sortRandom_permutes : forall array, sortRandom array ≡ₚ array.

Lemma getRandomSubset_submseteq array size :
getRandomSubset sortRandom array size ⊆+ array.
Proof.
unfold getRandomSubset. rewrite <- (sortRandom_permutes array) at 2.
apply slice0_submseteq.
Qed.

Lemma getRandomSubset_length array size :
0 <= size ->
Z.of_nat (length (getRandomSubset sortRandom array size))
= Z.min size (Z.of_nat (length array)).
Proof.
intros Hsize. unfold getRandomSubset.
rewrite slice0_length by exact Hsize. now rewrite (sortRandom_permutes array).
Qed.

(** C8: for every persisted card list, time, settings (with a session size
  that is not negative) and outcome of the shuffle, the cards handed to the
  review are distinct entries of the pool (a sub-multiset of it), and they
  are exactly [min(cardsPerSession, pool.length)] many; the pool is the due
  cards cut to [reviewsPerDay] or, when none is due, the never-reviewed
  cards cut to [newCardsPerDay]. A review session is opened exactly when the
  pool is not empty. With no due card, 5 never-reviewed cards,
  [newCardsPerDay = 10] and [cardsPerSession = 3] the session holds 3
  distinct cards of the 5. *)
Theorem review_selection_is_a_bounded_subset (now : Z) (p : Plugin) :
0 <= cardsPerSession (settings p) ->
let pool := reviewPool (settings p) now (storedCards p) in
let outcome := (reviewCards sortRandom now p).2 in
cardsToReview outcome ⊆+ pool
/\ Z.of_nat (length (cardsToReview outcome))
   = Z.min (cardsPerSession (settings p)) (Z.of_nat (length pool))
/\ (NoDup pool -> NoDup (cardsToReview outcome))
/\ (pool <> [] <-> outcome = ReviewSession (cardsToReview outcome))
/\ (0 <= now -> 0 <= newCardsPerDay (settings p) -> 0 <= reviewsPerDay (settings p) ->
    (forall card, card ∈ storedCards p -> lastReviewed card <> Some 0) ->
    pool = spec_pool (settings p) now (storedCards p))
/\ (List.filter (isDue now) (storedCards p) = [] ->
    length (List.filter neverReviewed (storedCards p)) = 5%nat ->
    newCardsPerDay (settings p) = 10 ->
    cardsPerSession (settings p) = 3 ->
    outcome = ReviewSession (cardsToReview outcome)
    /\ length (cardsToReview outcome) = 3%nat
    /\ cardsToReview outcome ⊆+ List.filter neverReviewed (storedCards p)).
Proof.
intros Hsize. cbv zeta.
assert (Hmain :
  cardsToReview (reviewCards sortRandom now p).2
    ⊆+ reviewPool (settings p) now (storedCards p)
  /\ Z.of_nat (length (cardsToReview (reviewCards sortRandom now p).2))
     = Z.min (cardsPerSession (settings p))
             (Z.of_nat (length (reviewPool (settings p) now (storedCards p))))
  /\ (reviewPool (settings p) now (storedCards p) <> []
      <-> (reviewCards sortRandom now p).2
          = ReviewSession (cardsToReview (reviewCards sortRandom now p).2))).
{ unfold reviewCards, storedCards, loadCardData. simpl.
  destruct (dataFile p ≫= data_cards) as [d|]; simpl.
  - destruct (cards d) as [|card stored] eqn:Hcards; simpl.
    + unfold reviewPool, slice0. simpl. rewrite take_nil.
      split; [reflexivity|]. split; [simpl; lia|]. split; [congruence|discriminate].
    + rewrite <- Hcards.
      set (pool := reviewPool (settings p) now (cards d)).
      destruct pool as [|card' pool'] eqn:Hpool; simpl.
      * split; [reflexivity|]. split; [lia|]. split; [congruence|discriminate].
      * split; [apply getRandomSubset_submseteq|].
        split; [|split; [reflexivity|discriminate]].
        rewrite getRandomSubset_length by (simpl length; lia).
        simpl length. lia.
  - unfold reviewPool, slice0. simpl. rewrite take_nil.
    split; [reflexivity|]. split; [simpl; lia|]. split; [congruence|discriminate]. }
destruct Hmain as (Hsub & Hlen & Hopen).
split; [exact Hsub|]. split; [exact Hlen|]. split; [|split; [exact Hopen|split]].
- intros Hnodup. eapply submseteq_keeps_NoDup; eassumption.
- apply reviewPool_as_specified.
- intros Hnodue Hfive Hnew Hcps.
  assert (Hpool : reviewPool (settings p) now (storedCards p)
                  = List.filter neverReviewed (storedCards p)).
  { unfold reviewPool. rewrite Hnodue, Hnew. simpl.
    rewrite slice0_take by lia. apply take_ge. lia. }
  rewrite Hpool in Hsub, Hlen, Hopen. rewrite Hcps, Hfive in Hlen.
  split; [|split; [lia|exact Hsub]].
  apply Hopen. intros Hnil. rewrite Hnil in Hfive. discriminate.
Qed.

End SelectorProperties.

Lemma review_selection_is_a_bounded_subset_witness :
  0 <= cardsPerSession (settings storeOfFive)
  /\ (reviewCards reverse 1000 storeOfFive).2
     = ReviewSession (waitingCard <$> [5; 4; 3])
  /\ length (cardsToReview (reviewCards reverse 1000 storeOfFive).2) = 3%nat.
Proof.
  assert (Hsize : 0 <= cardsPerSession (settings storeOfFive)) by (simpl; lia).
  split; [exact Hsize|]. split; [vm_compute; reflexivity|].
  destruct (review_selection_is_a_bounded_subset
              reverse (@reverse_Permutation AnkiCard) 1000 storeOfFive Hsize)
    as (_ & _ & _ & _ & _ & Hexample).
  apply Hexample; reflexivity.
Defined.

(** ** SRS scheduler *)

Lemma orDefaultQ_in_bounds card :
  easeUnsetOrInBounds card ->
  (1.3 <= orDefaultQ (easeFactor card) 2.5 <= 2.5)%Q.
Proof.
  intros [Hunset|(q & Hq & Hlo & Hhi)]; unfold orDefaultQ, falsyQ.
  - rewrite Hunset. simpl. lra.
  - rewrite Hq. destruct (Qeq_bool q 0) eqn:Hzero; simpl.
    + lra.
    + split; assumption.
Qed.

Lemma orDefaultQ_nonzero q d :
  ~ (q == 0)%Q -> orDefaultQ (Some q) d = q.
Proof.
  intros Hq. unfold orDefaultQ, falsyQ.
  destruct (Qeq_bool q 0) eqn:Hzero; [|reflexivity].
  apply Qeq_bool_iff in Hzero. contradiction.
Qed.

Lemma updateEase_in_bounds s q difficultyRating :
  (1 <= easyBonus s <= 2)%Q ->
  (1.3 <= q <= 2.5)%Q ->
  (1.3 <= updateEase s q difficultyRating <= 2.5)%Q.
Proof.
  intros [Hb1 Hb2] [Hlo Hhi]. unfold updateEase.
  destruct (difficultyRating =? 1); [|destruct (difficultyRating =? 2);
                                      [|destruct (difficultyRating =? 3)]].
  - split; [apply Q.le_max_l|apply Q.max_lub; lra].
  - split; assumption.
  - split; [apply Q.min_glb; lra|apply Q.le_min_l].
  - split; assumption.
Qed.

Lemma calculateNextReview_ease s now card difficultyRating :
  easeFactor (calculateNextReview s now card difficultyRating)
  = Some (updateEase s (orDefaultQ (easeFactor card) 2.5) difficultyRating).
Proof. reflexivity. Qed.

Lemma calculateNextReview_interval s now card difficultyRating :
  interval (calculateNextReview s now card difficultyRating)
  = Some (updateInterval s (orDefaultZ (interval card) 0)
            (updateEase s (orDefaultQ (easeFactor card) 2.5) difficultyRating)
            difficultyRating).
Proof. reflexivity. Qed.

Lemma reviewHistory_ease_in_bounds card reviews :
  easeUnsetOrInBounds card ->
  Forall documentedReview reviews ->
  Forall easeInBounds (reviewHistory card reviews).
Proof.
  intros Hcard Hreviews. revert card Hcard.
  induction Hreviews as [|r reviews [_ Hbonus] _ IH]; intros card Hcard.
  - constructor.
  - simpl.
    assert (Hnext : easeInBounds
                      (calculateNextReview (inForce r) (clock r) card (rating r))).
    { eexists. split; [apply calculateNextReview_ease|].
      apply updateEase_in_bounds; [exact Hbonus|].
      now apply orDefaultQ_in_bounds. }
    constructor; [exact Hnext|]. apply IH. now right.
Qed.

(** C2: a card whose ease factor is unset or 2.5 at the start, reviewed any
    finite number of times with ratings among 1 (Hard), 2 (Good), 3 (Easy)
    and an [easyBonus] within [[1.0, 2.0]], has an ease factor within
    [[1.3, 2.5]] after each call. *)
Theorem ease_factor_stays_in_bounds (card : AnkiCard) (reviews : list Review) :
  (easeFactor card = None
   \/ exists q, easeFactor card = Some q /\ (q == 2.5)%Q) ->
  Forall documentedReview reviews ->
  Forall easeInBounds (reviewHistory card reviews).
Proof.
  intros Hstart. apply reviewHistory_ease_in_bounds.
  destruct Hstart as [Hunset|(q & Hq & Heq)]; [now left|].
  right. exists q. split; [exact Hq|]. rewrite Heq. lra.
Qed.

Lemma ease_factor_stays_in_bounds_witness :
  Forall easeInBounds (reviewHistory strangerCard fourReviews).
Proof.
  apply ease_factor_stays_in_bounds.
  - left. reflexivity.
  - repeat constructor; simpl; unfold ratingInRange; try lia; lra.
Defined.

(** C3: for a card whose [interval] is 0 or unset, a scheduler call rated
    Hard yields the interval 1, Good 3 and Easy 7, whatever the ease factor
    of the card and whatever the settings. *)
Theorem first_review_intervals_are_fixed
        (s : AnkiPluginSettings) (now : Z) (card : AnkiCard) :
  interval card = None \/ interval card = Some 0 ->
  interval (calculateNextReview s now card 1) = Some 1
  /\ interval (calculateNextReview s now card 2) = Some 3
  /\ interval (calculateNextReview s now card 3) = Some 7
  /\ forall s' now' card' difficultyRating,
      ratingInRange difficultyRating ->
      interval card' = None \/ interval card' = Some 0 ->
      interval (calculateNextReview s' now' card' difficultyRating)
      = interval (calculateNextReview s now card difficultyRating).
Proof.
  intros Hfirst.
  assert (Hzero : forall c, interval c = None \/ interval c = Some 0 ->
                            orDefaultZ (interval c) 0 = 0).
  { intros c [Hc|Hc]; unfold orDefaultZ; now rewrite Hc. }
  repeat split; try (rewrite calculateNextReview_interval, (Hzero _ Hfirst); reflexivity).
  intros s' now' card' difficultyRating Hrating Hfirst'.
  rewrite !calculateNextReview_interval, (Hzero _ Hfirst), (Hzero _ Hfirst').
  destruct Hrating as [-> | [-> | ->]]; reflexivity.
Qed.

Lemma first_review_intervals_are_fixed_witness :
  interval (calculateNextReview DEFAULT_SETTINGS 1000 strangerCard 1) = Some 1
  /\ interval (calculateNextReview DEFAULT_SETTINGS 1000 strangerCard 2) = Some 3
  /\ interval (calculateNextReview DEFAULT_SETTINGS 1000 strangerCard 3) = Some 7.
Proof.
  destruct (first_review_intervals_are_fixed DEFAULT_SETTINGS 1000 strangerCard
              (or_introl eq_refl)) as (H1 & H2 & H3 & _).
  now repeat split.
Defined.

(** *** Double precision *)









(** The rounding sees the product of doubles, not the exact one: nine days
    at ease 2.5 stretched by 1.4 make [22.5 * 1.4 = 31.499999999999996] in
    double precision (1.4 is not a double, the nearest one lies below it),
    hence 31 days, where the exact product 31.5 would round to 32. *)
Example later_review_of_nine_days :
  (9 * 2.5 * 1.4 = 31.499999999999996)%float
  /\ Double.interval
       (Double.calculateNextReview Double.stretchedSettings 777700000 Double.dueAfterNine 2)
     = Some 31%float.
Proof. split; vm_compute; reflexivity. Qed.

(** [!card.interval] takes NaN for a missing interval: the call is a first
    review. *)
Example nan_interval_is_a_first_review :
  Double.interval
    (Double.calculateNextReview Double.DEFAULT_SETTINGS 1000
       {| Double.lastReviewed := None; Double.nextReview := None;
          Double.easeFactor := Some 2.5%float; Double.interval := Some nan;
          Double.reviewCount := Some 1%float |} 2)
  = Some 3%float.
Proof. vm_compute. reflexivity. Qed.

(** C5: for every card, every rating among 1, 2, 3 and every settings whose
    [maxInterval] lies in the documented [[30, 1000]], the interval after a
    scheduler call is at most [maxInterval]; the fixed intervals of a first
    review (1, 3, 7) are below it as well. *)
Theorem interval_is_capped
        (s : AnkiPluginSettings) (now : Z) (card : AnkiCard) (difficultyRating : Z) :
  ratingInRange difficultyRating ->
  30 <= maxInterval s <= 1000 ->
  exists days,
    interval (calculateNextReview s now card difficultyRating) = Some days
    /\ days <= maxInterval s.
Proof.
  intros Hrating [Hmin _]. eexists. split; [apply calculateNextReview_interval|].
  unfold updateInterval.
  destruct (orDefaultZ (interval card) 0 =? 0).
  - destruct Hrating as [-> | [-> | ->]]; simpl; lia.
  - apply Z.le_min_r.
Qed.

Lemma interval_is_capped_witness :
  exists days,
    interval (calculateNextReview DEFAULT_SETTINGS 1000 strangerCard 3) = Some days
    /\ days <= maxInterval DEFAULT_SETTINGS.
Proof.
  apply interval_is_capped.
  - right. right. reflexivity.
  - simpl. lia.
Defined.

(** * Further properties *)

(** ** Strings *)

Lemma startsWith_app p r : startsWith p (p ++ r) = true.
Proof.
  induction p as [|a p IH]; simpl; [reflexivity|].
  now rewrite Z.eqb_refl, IH.
Qed.

Lemma startsWith_inv p s : startsWith p s = true -> exists r, s = p ++ r.
Proof.
  revert s. induction p as [|a p IH]; intros s Hs.
  - now exists s.
  - destruct s as [|b s]; simpl in Hs; [discriminate|].
    apply andb_true_iff in Hs as [Hab Hs]. apply Z.eqb_eq in Hab. subst b.
    destruct (IH s Hs) as (r & ->). now exists r.
Qed.

Lemma indexOf_unfold p s :
  indexOf p s
  = if startsWith p s then Some O
    else match s with
         | [] => None
         | _ :: s' => S <$> indexOf p s'
         end.
Proof. destruct s; reflexivity. Qed.

Lemma indexOf_Some p s j :
  indexOf p s = Some j -> exists r, s = take j s ++ p ++ r.
Proof.
  revert j. induction s as [|c s IH]; intros j Hj; rewrite indexOf_unfold in Hj.
  - destruct (startsWith p []) eqn:Hp; [|discriminate].
    injection Hj as <-. now apply startsWith_inv in Hp.
  - destruct (startsWith p (c :: s)) eqn:Hp.
    + injection Hj as <-. now apply startsWith_inv in Hp.
    + destruct (indexOf p s) as [i|] eqn:Hi; [|discriminate].
      injection Hj as <-. destruct (IH i eq_refl) as (r & Hr).
      exists r. simpl. now rewrite <- Hr.
Qed.

Lemma indexOf_occurs p pre r : indexOf p (pre ++ p ++ r) <> None.
Proof.
  induction pre as [|c pre IH]; rewrite indexOf_unfold.
  - simpl. now rewrite startsWith_app.
  - simpl. destruct (startsWith p (c :: pre ++ p ++ r)); [discriminate|].
    destruct (indexOf p (pre ++ p ++ r)); [discriminate|contradiction].
Qed.

Lemma trimStart_split s :
  exists w, s = w ++ trimStart s /\ allWhiteSpace w.
Proof.
  induction s as [|c s (w & Hs & Hw)]; simpl.
  - exists []. split; [reflexivity|constructor].
  - destruct (isWhiteSpace c) eqn:Hc.
    + exists (c :: w). split; [simpl; now rewrite <- Hs|now constructor].
    + exists []. split; [reflexivity|constructor].
Qed.

Lemma trimStart_head s c t : trimStart s = c :: t -> isWhiteSpace c = false.
Proof.
  induction s as [|a s IH]; simpl; [discriminate|].
  destruct (isWhiteSpace a) eqn:Ha; [exact IH|].
  intros Heq. injection Heq as -> _. exact Ha.
Qed.

(** [trim] strips white space at both ends and nothing else. *)
Lemma trim_spec s :
  exists w1 w2,
    s = w1 ++ trim s ++ w2
    /\ allWhiteSpace w1 /\ allWhiteSpace w2
    /\ noOuterWhiteSpace (trim s).
Proof.
  destruct (trimStart_split s) as (w1 & Hs & Hw1).
  destruct (trimStart_split (rev (trimStart s))) as (w2 & Hr & Hw2).
  assert (Hu : trimStart s = trim s ++ rev w2).
  { unfold trim, trimEnd. rewrite <- rev_app_distr, <- Hr. now rewrite rev_involutive. }
  exists w1, (rev w2). split; [|split; [exact Hw1|split]].
  - now rewrite <- Hu.
  - now apply List.Forall_rev.
  - split.
    + intros c t' Ht. rewrite Ht in Hu. now apply (trimStart_head s c (t' ++ rev w2)).
    + intros c t' Ht. unfold trim, trimEnd in Ht.
      apply (f_equal (@rev Z)) in Ht. rewrite rev_involutive, rev_app_distr in Ht.
      simpl in Ht. now apply trimStart_head in Ht.
Qed.

Lemma joinWith_cons sep first second rest :
  joinWith sep (first :: second :: rest)
  = first ++ sep ++ joinWith sep (second :: rest).
Proof. reflexivity. Qed.

Section LiteralSplit.

Variable sep : jsstring.
Variable m : jsstring -> option nat.

(** The matcher finds [sep] and nothing else, under whatever further
    condition. *)
Hypothesis m_literal :
  forall s n, m s = Some n -> n = length sep /\ startsWith sep s = true.

Lemma splitBy_skip w r piece :
  splitBy m (w ++ r) (length w) piece = splitBy m r O piece.
Proof. induction w as [|c w IH]; simpl; [reflexivity|exact IH]. Qed.

Lemma splitBy_cons s skip piece :
  exists first rest, splitBy m s skip piece = first :: rest.
Proof.
  revert skip piece. induction s as [|c s IH]; intros skip piece; simpl; [eauto|].
  destruct skip as [|k]; [|apply IH].
  destruct (m (c :: s)) as [[|len]|]; eauto.
Qed.

Lemma joinWith_splitBy n : forall s piece,
  (length s <= n)%nat ->
  joinWith sep (splitBy m s O piece) = rev piece ++ s.
Proof.
  induction n as [|n IH]; intros s piece Hlen.
  - destruct s; [|simpl in Hlen; lia]. simpl. now rewrite app_nil_r.
  - destruct s as [|c s]; [simpl; now rewrite app_nil_r|].
    simpl. destruct (m (c :: s)) as [[|len]|] eqn:Hm.
    + rewrite IH by (simpl in Hlen; lia). simpl. now rewrite <- app_assoc.
    + destruct (m_literal _ _ Hm) as [Hn Hsep].
      apply startsWith_inv in Hsep as (r & Hr).
      destruct sep as [|a sep']; [discriminate|].
      simpl in Hn, Hr. injection Hn as Hn. injection Hr as Hc Hs.
      rewrite Hs, Hc, Hn, splitBy_skip.
      destruct (splitBy_cons r O []) as (first & rest & Hsplit).
      assert (Hjoin : joinWith (a :: sep') (splitBy m r O []) = r).
      { rewrite IH; [reflexivity|]. simpl in Hlen. rewrite Hs, length_app in Hlen. lia. }
      rewrite Hsplit in *. now rewrite joinWith_cons, Hjoin.
    + rewrite IH by (simpl in Hlen; lia). simpl. now rewrite <- app_assoc.
Qed.

(** Gluing the pieces of a split with the separator gives the text back. *)
Lemma joinWith_split s : joinWith sep (split m s) = s.
Proof. unfold split. now rewrite (joinWith_splitBy (length s)). Qed.

End LiteralSplit.

Lemma joinWith_elem sep pieces piece :
  piece ∈ pieces -> exists a b, joinWith sep pieces = a ++ piece ++ b.
Proof.
  induction pieces as [|first rest IH]; intros Hin.
  - now apply elem_of_nil in Hin.
  - apply elem_of_cons in Hin as [->|Hin].
    + destruct rest as [|second rest].
      * exists [], []. simpl. now rewrite app_nil_r.
      * exists [], (sep ++ joinWith sep (second :: rest)). reflexivity.
    + destruct (IH Hin) as (a & b & Hjoin). destruct rest as [|second rest].
      * now apply elem_of_nil in Hin.
      * exists (first ++ sep ++ a), b.
        change (joinWith sep (first :: second :: rest))
          with (first ++ sep ++ joinWith sep (second :: rest)).
        rewrite Hjoin. now rewrite <- !app_assoc.
Qed.

Lemma separatorLine_literal s n :
  separatorLine s = Some n -> n = length qaSeparator /\ startsWith qaSeparator s = true.
Proof.
  unfold separatorLine. destruct (startsWith qaSeparator s); [|discriminate].
  intros Hn. injection Hn as <-. now split.
Qed.

Lemma cardBoundary_literal s n :
  cardBoundary s = Some n -> n = length blankLine /\ startsWith blankLine s = true.
Proof.
  unfold cardBoundary. destruct (startsWith blankLine s); [|discriminate].
  simpl. destruct (bool_decide _); [|discriminate].
  intros Hn. injection Hn as <-. now split.
Qed.

(** ** Card parser, continued *)

Lemma indexOf_le p s j : indexOf p s = Some j -> (j <= length s)%nat.
Proof.
  revert j. induction s as [|c s IH]; intros j Hj; rewrite indexOf_unfold in Hj.
  - destruct (startsWith p []); [|discriminate]. injection Hj as <-. simpl. lia.
  - destruct (startsWith p (c :: s)); [injection Hj as <-; lia|].
    destruct (indexOf p s) as [i|]; [|discriminate].
    injection Hj as <-. specialize (IH i eq_refl). simpl. lia.
Qed.

Lemma ankiBlocks_unfold c s index skip :
  ankiBlocks (c :: s) index skip
  = match skip with
    | S k => ankiBlocks s (index + 1) k
    | O =>
        if startsWith fenceOpen (c :: s) then
          let rest := drop (length fenceOpen) (c :: s) in
          match indexOf fenceClose rest with
          | Some j =>
              (index, take j rest)
                :: ankiBlocks s (index + 1)
                     (length fenceOpen + j + length fenceClose - 1)%nat
          | None => []
          end
        else ankiBlocks s (index + 1) O
    end.
Proof. reflexivity. Qed.

(** Every match of the block expression lies in the document between an
    opening fence at [match.index] and the first closing fence behind it. *)
Lemma ankiBlocks_decompose s : forall index skip pos blockContent,
  (pos, blockContent) ∈ ankiBlocks s index skip ->
  exists pre post,
    s = pre ++ fenceOpen ++ blockContent ++ fenceClose ++ post
    /\ pos = index + Z.of_nat (length pre)
    /\ indexOf fenceClose (blockContent ++ fenceClose ++ post)
       = Some (length blockContent).
Proof.
  induction s as [|c s IH]; intros index skip pos blockContent Hin.
  - now apply elem_of_nil in Hin.
  - assert (Hlater : forall skip',
               (pos, blockContent) ∈ ankiBlocks s (index + 1) skip' ->
               exists pre post,
                 c :: s = pre ++ fenceOpen ++ blockContent ++ fenceClose ++ post
                 /\ pos = index + Z.of_nat (length pre)
                 /\ indexOf fenceClose (blockContent ++ fenceClose ++ post)
                    = Some (length blockContent)).
    { intros skip' Hin'. destruct (IH _ _ _ _ Hin') as (pre & post & Hs & Hpos & Hfirst).
      exists (c :: pre), post. split; [rewrite <- app_comm_cons; now rewrite <- Hs|].
      split; [simpl length; lia|exact Hfirst]. }
    rewrite ankiBlocks_unfold in Hin. destruct skip as [|k]; [|now apply (Hlater k)].
    destruct (startsWith fenceOpen (c :: s)) eqn:Hopen; [|now apply (Hlater O)].
    apply startsWith_inv in Hopen as (rest & Hrest).
    rewrite Hrest, drop_app_length in Hin. cbv zeta in Hin.
    destruct (indexOf fenceClose rest) as [j|] eqn:Hclose;
      [|now apply elem_of_nil in Hin].
    apply elem_of_cons in Hin as [Hhere|Hin]; [|now apply (Hlater _ Hin)].
    injection Hhere as -> ->.
    destruct (indexOf_Some _ _ _ Hclose) as (post & Hpost).
    apply indexOf_le in Hclose as Hj.
    exists [], post. split; [rewrite app_nil_l, Hrest; now rewrite <- Hpost|].
    split; [simpl; lia|].
    rewrite <- Hpost, length_take. rewrite Nat.min_l by exact Hj. exact Hclose.
Qed.

(** Where a parsed card lies in the document: its block between the
    fences, and in the block its two parts around a separator line. *)
Lemma parsed_card_origin content fileName card :
  card ∈ findAnkiCardsInContent content fileName ->
  exists pre blockContent post a part0 part1 b,
    content = pre ++ fenceOpen ++ blockContent ++ fenceClose ++ post
    /\ indexOf fenceClose (blockContent ++ fenceClose ++ post)
       = Some (length blockContent)
    /\ blockContent = a ++ part0 ++ qaSeparator ++ part1 ++ b
    /\ card = newCard (trim part0) (trim part1) fileName (Z.of_nat (length pre)).
Proof.
  intros Hin. apply findAnkiCardsInContent_elem in Hin
    as (pos & blockContent & cardContent & part0 & part1 & Hblock & Hsub & Hparts & ->).
  destruct (ankiBlocks_decompose _ _ _ _ _ Hblock) as (pre & post & Hcontent & Hpos & Hfirst).
  pose proof (joinWith_split blankLine cardBoundary cardBoundary_literal blockContent)
    as Hjoin.
  destruct (joinWith_elem blankLine _ _ Hsub) as (a & b & Hinfix).
  rewrite Hjoin in Hinfix.
  pose proof (joinWith_split qaSeparator separatorLine separatorLine_literal cardContent)
    as Hcard.
  rewrite Hparts in Hcard. simpl in Hcard.
  exists pre, blockContent, post, a, part0, part1, b.
  split; [exact Hcontent|]. split; [exact Hfirst|]. split.
  - rewrite Hinfix, <- Hcard. now rewrite <- !app_assoc.
  - f_equal. lia.
Qed.

(** X1: the front and the back of every parsed card are trimmed: neither
    starts nor ends with a white-space or line-break character, and each is
    its part of the sub-block less the white space around it; the two parts
    stand in the document on the two sides of a separator line. *)
Theorem parsed_text_is_trimmed (content fileName : jsstring) (card : AnkiCard) :
  card ∈ findAnkiCardsInContent content fileName ->
  noOuterWhiteSpace (front card) /\ noOuterWhiteSpace (back card)
  /\ exists part0 part1 w0 w0' w1 w1',
      part0 = w0 ++ front card ++ w0' /\ part1 = w1 ++ back card ++ w1'
      /\ allWhiteSpace w0 /\ allWhiteSpace w0'
      /\ allWhiteSpace w1 /\ allWhiteSpace w1'
      /\ exists pre post, content = pre ++ part0 ++ qaSeparator ++ part1 ++ post.
Proof.
  intros Hin. apply parsed_card_origin in Hin
    as (pre & blockContent & post & a & part0 & part1 & b & Hcontent & _ & Hblock & ->).
  destruct (trim_spec part0) as (w0 & w0' & H0 & Hw0 & Hw0' & Hfront).
  destruct (trim_spec part1) as (w1 & w1' & H1 & Hw1 & Hw1' & Hback).
  split; [exact Hfront|]. split; [exact Hback|].
  exists part0, part1, w0, w0', w1, w1'. simpl.
  repeat (split; [assumption|]).
  exists (pre ++ fenceOpen ++ a), (b ++ fenceClose ++ post).
  rewrite Hcontent, Hblock. now rewrite <- !app_assoc.
Qed.

Lemma parsed_text_is_trimmed_witness :
  noOuterWhiteSpace (str "Jupiter").
Proof.
  assert (Hin : newCard (str "What is the largest planet in our solar system?")
                        (str "Jupiter") (str "Geo") 0
                  ∈ findAnkiCardsInContent twoCardBlock (str "Geo")).
  { rewrite parse_two_cards. apply list_elem_of_further, list_elem_of_here. }
  exact (proj1 (proj2 (parsed_text_is_trimmed _ _ _ Hin))).
Defined.

(** X2: the [position] of every parsed card is the offset of the opening
    fence of its block in the document, and the block ends at the first
    closing fence behind that opening fence. *)
Theorem parsed_position_is_fence_offset (content fileName : jsstring) (card : AnkiCard) :
  card ∈ findAnkiCardsInContent content fileName ->
  exists pre blockContent post,
    content = pre ++ fenceOpen ++ blockContent ++ fenceClose ++ post
    /\ position card = Z.of_nat (length pre)
    /\ indexOf fenceClose (blockContent ++ fenceClose ++ post)
       = Some (length blockContent)
    /\ 0 <= position card
    /\ position card + 12 <= Z.of_nat (length content).
Proof.
  intros Hin. apply parsed_card_origin in Hin
    as (pre & blockContent & post & a & part0 & part1 & b & Hcontent & Hfirst & _ & ->).
  exists pre, blockContent, post. simpl position.
  split; [exact Hcontent|]. split; [lia|]. split; [exact Hfirst|]. split; [lia|].
  rewrite Hcontent, !length_app.
  change (length fenceOpen) with 8%nat. change (length fenceClose) with 4%nat. lia.
Qed.

Lemma parsed_position_is_fence_offset_witness :
  exists pre blockContent post,
    franceMoved = pre ++ fenceOpen ++ blockContent ++ fenceClose ++ post
    /\ 12 = Z.of_nat (length pre).
Proof.
  assert (Hin : newCard (str "What is the capital of France?") (str "Paris") (str "Geo") 12
                  ∈ findAnkiCardsInContent franceMoved (str "Geo"))
    by (vm_compute; apply list_elem_of_here).
  destruct (parsed_position_is_fence_offset _ _ _ Hin)
    as (pre & blockContent & post & Hcontent & Hpos & _).
  exists pre, blockContent, post. split; [exact Hcontent|exact Hpos].
Defined.

(** X3: a document that lacks an opening fence line, a closing fence or a
    separator line yields no card at all. *)
Theorem no_fence_or_separator_no_cards (content fileName : jsstring) :
  indexOf fenceOpen content = None
  \/ indexOf fenceClose content = None
  \/ indexOf qaSeparator content = None ->
  findAnkiCardsInContent content fileName = [].
Proof.
  intros Hmissing.
  destruct (findAnkiCardsInContent content fileName) as [|card others] eqn:Hcards;
    [reflexivity|exfalso].
  assert (Hin : card ∈ findAnkiCardsInContent content fileName)
    by (rewrite Hcards; apply list_elem_of_here).
  apply parsed_card_origin in Hin
    as (pre & blockContent & post & a & part0 & part1 & b & Hcontent & _ & Hblock & _).
  rewrite Hcontent in Hmissing. destruct Hmissing as [Hnone|[Hnone|Hnone]].
  - now apply indexOf_occurs in Hnone.
  - replace (pre ++ fenceOpen ++ blockContent ++ fenceClose ++ post)
      with ((pre ++ fenceOpen ++ blockContent) ++ fenceClose ++ post) in Hnone
      by now rewrite <- !app_assoc.
    now apply indexOf_occurs in Hnone.
  - rewrite Hblock in Hnone.
    replace (pre ++ fenceOpen ++ (a ++ part0 ++ qaSeparator ++ part1 ++ b)
                 ++ fenceClose ++ post)
      with ((pre ++ fenceOpen ++ a ++ part0) ++ qaSeparator
              ++ (part1 ++ b ++ fenceClose ++ post)) in Hnone
      by now rewrite <- !app_assoc.
    now apply indexOf_occurs in Hnone.
Qed.

Lemma no_fence_or_separator_no_cards_witness :
  findAnkiCardsInContent (str "No cards here.") (str "Notes") = [].
Proof.
  apply no_fence_or_separator_no_cards. left. vm_compute. reflexivity.
Defined.

(** ** Identity hasher, continued *)

Lemma toInt32_repr n : exists k, toInt32 n = n + k * 2 ^ 32.
Proof.
  exists (- ((n + 2 ^ 31) / 2 ^ 32)). unfold toInt32.
  rewrite Z.mod_eq by lia. lia.
Qed.

Lemma toInt32_shift n k : toInt32 (n + k * 2 ^ 32) = toInt32 n.
Proof.
  unfold toInt32.
  replace (n + k * 2 ^ 32 + 2 ^ 31) with (n + 2 ^ 31 + k * 2 ^ 32) by lia.
  now rewrite Z_mod_plus_full.
Qed.

Lemma toInt32_range n : - 2 ^ 31 <= toInt32 n < 2 ^ 31.
Proof.
  unfold toInt32. pose proof (Z.mod_pos_bound (n + 2 ^ 31) (2 ^ 32)). lia.
Qed.

(** One round of the loop computes [31 * hash + char], wrapped. *)
Lemma hashStep_polynomial a c : hashStep (toInt32 a) c = toInt32 (31 * a + c).
Proof.
  unfold hashStep, and32, shl. rewrite Z.land_diag, Z.shiftl_mul_pow2 by lia.
  destruct (toInt32_repr a) as (k1 & H1).
  destruct (toInt32_repr (toInt32 a)) as (k2 & H2).
  destruct (toInt32_repr (toInt32 (toInt32 a) * 2 ^ 5)) as (k3 & H3).
  destruct (toInt32_repr (toInt32 (toInt32 (toInt32 a) * 2 ^ 5) - toInt32 a + c))
    as (k4 & H4).
  rewrite H4, H3, H2, H1.
  replace (a + k1 * 2 ^ 32 + k2 * 2 ^ 32) with (a + (k1 + k2) * 2 ^ 32) by lia.
  replace ((a + (k1 + k2) * 2 ^ 32) * 2 ^ 5 + k3 * 2 ^ 32 - (a + k1 * 2 ^ 32) + c
           + k4 * 2 ^ 32)
    with (31 * a + c + ((k1 + k2) * 2 ^ 5 + k3 - k1 + k4) * 2 ^ 32) by lia.
  apply toInt32_shift.
Qed.

Lemma fold_left_step {A B} (f : A -> B -> A) (c : B) (s : list B) (a : A) :
  fold_left f (c :: s) a = fold_left f s (f a c).
Proof. reflexivity. Qed.

Lemma fold_hashStep_polynomial s : forall a,
  fold_left hashStep s (toInt32 a)
  = toInt32 (fold_left (fun h c => 31 * h + c) s a).
Proof.
  induction s as [|c s IH]; intros a; [reflexivity|].
  rewrite !fold_left_step, hashStep_polynomial. apply IH.
Qed.

Lemma fold_hashStep_range s : - 2 ^ 31 <= fold_left hashStep s 0 < 2 ^ 31.
Proof.
  assert (Heq : fold_left hashStep s 0
                = toInt32 (fold_left (fun h c => 31 * h + c) s 0))
    by (change 0 with (toInt32 0) at 1; apply fold_hashStep_polynomial).
  rewrite Heq. apply toInt32_range.
Qed.

(** X4: the hash behind a card id is the polynomial hash with multiplier 31
    over the code units of [front|back|sourceFile], wrapped to a signed
    32-bit integer; it always lies in the 32-bit range. *)
Theorem content_hash_is_polynomial31 (front back sourceFile : jsstring) :
  contentHash front back sourceFile
  = toInt32 (polynomial31 (front ++ [124] ++ back ++ [124] ++ sourceFile))
  /\ - 2 ^ 31 <= contentHash front back sourceFile < 2 ^ 31
  /\ generateCardId front back sourceFile
     = str "card_" ++ toString36 (Z.abs (contentHash front back sourceFile)).
Proof.
  assert (Hpoly : contentHash front back sourceFile
                  = toInt32 (polynomial31 (front ++ [124] ++ back ++ [124] ++ sourceFile))).
  { unfold contentHash, polynomial31.
    change 0 with (toInt32 0) at 1. apply fold_hashStep_polynomial. }
  split; [exact Hpoly|]. split; [|reflexivity].
  rewrite Hpoly. apply toInt32_range.
Qed.

Lemma toString36_digits_app fuel : forall n acc,
  toString36_digits fuel n acc = toString36_digits fuel n [] ++ acc.
Proof.
  induction fuel as [|fuel IH]; intros n acc; simpl; [reflexivity|].
  destruct (n <? 36); [reflexivity|].
  rewrite IH, (IH _ [digit36 (n mod 36)]). now rewrite <- app_assoc.
Qed.

Lemma parseInt36_snoc s d :
  parseInt36 (s ++ [d]) = 36 * parseInt36 s + digitValue36 d.
Proof. unfold parseInt36. now rewrite fold_left_app. Qed.

Lemma digitValue36_digit36 d : 0 <= d < 36 -> digitValue36 (digit36 d) = d.
Proof.
  intros Hd. unfold digitValue36, digit36.
  destruct (d <? 10) eqn:Hlt.
  - apply Z.ltb_lt in Hlt. destruct (48 + d <? 58) eqn:H; [lia|].
    apply Z.ltb_ge in H. lia.
  - apply Z.ltb_ge in Hlt. destruct (87 + d <? 58) eqn:H; [|lia].
    apply Z.ltb_lt in H. lia.
Qed.

Lemma parseInt36_digits fuel : forall n,
  0 <= n < 2 ^ Z.of_nat fuel ->
  parseInt36 (toString36_digits fuel n []) = n.
Proof.
  induction fuel as [|fuel IH]; intros n Hn.
  - simpl in Hn. assert (n = 0) as -> by lia. reflexivity.
  - simpl. destruct (n <? 36) eqn:Hsmall.
    + apply Z.ltb_lt in Hsmall. unfold parseInt36. simpl.
      rewrite Z.mod_small by lia. rewrite digitValue36_digit36; lia.
    + apply Z.ltb_ge in Hsmall.
      rewrite toString36_digits_app, parseInt36_snoc.
      rewrite digitValue36_digit36 by (apply Z.mod_pos_bound; lia).
      rewrite IH.
      * symmetry. apply Z.div_mod. lia.
      * rewrite Nat2Z.inj_succ, Z.pow_succ_r in Hn by lia.
        split; [apply Z.div_pos; lia|].
        apply Z.div_lt_upper_bound; lia.
Qed.

(** Rendering in radix 36 loses nothing: the digits read back as the
    number. *)
Lemma parseInt36_toString36 n : 0 <= n -> parseInt36 (toString36 n) = n.
Proof.
  intros Hn. unfold toString36. apply parseInt36_digits.
  rewrite Nat2Z.inj_succ, Z2Nat.id by apply Z.log2_nonneg.
  destruct (Z.eq_dec n 0) as [->|Hpos]; [simpl; lia|].
  split; [exact Hn|]. apply Z.log2_spec. lia.
Qed.

(** X5: two contents get the same card id exactly when their 32-bit hashes
    agree up to sign: the radix-36 rendering is faithful, and [Math.abs]
    folds a hash onto its negative. *)
Theorem card_ids_collide_iff_hashes_agree
        (front1 back1 file1 front2 back2 file2 : jsstring) :
  generateCardId front1 back1 file1 = generateCardId front2 back2 file2
  <-> Z.abs (contentHash front1 back1 file1) = Z.abs (contentHash front2 back2 file2).
Proof.
  unfold generateCardId. fold (contentHash front1 back1 file1).
  fold (contentHash front2 back2 file2). split.
  - intros Hid. apply app_inv_head in Hid.
    apply (f_equal parseInt36) in Hid.
    now rewrite !parseInt36_toString36 in Hid by apply Z.abs_nonneg.
  - now intros ->.
Qed.

(** X6: the delimiter [|] between the three fields is not escaped, so a
    text running across it is not told apart: a front [f|x] with back [b]
    gets the id of the front [f] with back [x|b], and likewise between back
    and file name. *)
Theorem delimiter_is_not_escaped (f x b sourceFile : jsstring) :
  generateCardId (f ++ [124] ++ x) b sourceFile
  = generateCardId f (x ++ [124] ++ b) sourceFile
  /\ generateCardId f (b ++ [124] ++ x) sourceFile
     = generateCardId f b (x ++ [124] ++ sourceFile).
Proof.
  unfold generateCardId. split; f_equal; f_equal; f_equal;
    now rewrite <- ?app_assoc.
Qed.

(** ** Persistence *)

(** X7: the settings and the card store share one data object but do not
    disturb each other. Saving the cards keeps the stored settings, saving
    the settings keeps the stored cards, and what is saved is what the next
    load reads. Each save is one call to the host. *)
Theorem settings_and_cards_persist_side_by_side (d : AnkiData) (p : Plugin) :
  cardData (loadCardData (saveCardData d p)) = Some d
  /\ settings (loadSettings (saveSettings p)) = settings p
  /\ settings (loadSettings (saveCardData d p)) = settings (loadSettings p)
  /\ cardData (loadCardData (saveSettings p)) = cardData (loadCardData p)
  /\ storedCards (saveSettings p) = storedCards p
  /\ length (saved (saveCardData d p)) = S (length (saved p))
  /\ length (saved (saveSettings p)) = S (length (saved p)).
Proof.
  unfold loadCardData, loadSettings, saveCardData, saveSettings, storedCards. simpl.
  destruct (dataFile p) as [[stored_settings stored_cards]|]; simpl; now repeat split.
Qed.

(** ** Card store merger, continued *)

Lemma lookupById_elem cards card :
  card ∈ cards -> is_Some (lookupById cards !! id card).
Proof.
  induction cards as [|last cards IH] using rev_ind; intros Hin.
  - now apply elem_of_nil in Hin.
  - rewrite lookupById_snoc.
    destruct (decide (id last = id card)) as [Heq|Hne].
    + rewrite <- Heq, lookup_insert_eq. eauto.
    + rewrite lookup_insert_ne by exact Hne. apply IH.
      apply elem_of_app in Hin as [Hin|Hin]; [exact Hin|].
      apply list_elem_of_singleton in Hin. now subst.
Qed.

Lemma mergedCardsOfFile_fmap existingCards file :
  mergedCardsOfFile existingCards file
  = mergeCard existingCards <$> parsedCardsOfFile file.
Proof. unfold mergedCardsOfFile, parsedCardsOfFile. now destruct (read file). Qed.

(** The merged cards are the parsed cards of the vault, each merged. *)
Lemma scanVault_fmap existingCards files :
  scanVault existingCards files
  = mergeCard existingCards <$> (files ≫= parsedCardsOfFile).
Proof.
  rewrite scanVault_bind. induction files as [|file files IH]; [reflexivity|].
  rewrite !bind_cons, fmap_app, IH. now rewrite mergedCardsOfFile_fmap.
Qed.

Lemma parsedCardsOfFile_unscheduled file card :
  card ∈ parsedCardsOfFile file ->
  lastReviewed card = None /\ nextReview card = None.
Proof.
  unfold parsedCardsOfFile. destruct (read file) as [content|]; intros Hin;
    [|now apply elem_of_nil in Hin].
  now apply parsed_card_shape in Hin as (_ & _ & Hlr & Hnr & _).
Qed.

(** X8: a file that cannot be read is passed over: the pass goes on, and the
    cards of the other files are what they would be without it. The cards of
    the vault are the cards of its files, in the order of the files. *)
Theorem unreadable_file_is_skipped
        (existingCards : gmap jsstring AnkiCard)
        (before after : list MarkdownFile) (file : MarkdownFile) :
  (read file = None ->
   scanVault existingCards (before ++ file :: after)
   = scanVault existingCards (before ++ after))
  /\ scanVault existingCards (before ++ after)
     = scanVault existingCards before ++ scanVault existingCards after.
Proof.
  rewrite !scanVault_bind. split.
  - intros Hread. rewrite !bind_app, bind_cons.
    unfold mergedCardsOfFile at 2. now rewrite Hread.
  - apply bind_app.
Qed.

Lemma unreadable_file_is_skipped_witness :
  scanVault ∅ ([ {| basename := str "Geo"; read := Some franceFirst |} ]
               ++ {| basename := str "Locked"; read := None |}
               :: [ {| basename := str "Notes"; read := Some (str "No cards here.") |} ])
  = scanVault ∅ ([ {| basename := str "Geo"; read := Some franceFirst |} ]
                 ++ [ {| basename := str "Notes"; read := Some (str "No cards here.") |} ]).
Proof.
  exact (proj1 (unreadable_file_is_skipped ∅ _ _ {| basename := str "Locked"; read := None |})
               eq_refl).
Defined.

Lemma card_ext (a b : AnkiCard) :
  id a = id b -> front a = front b -> back a = back b ->
  sourceFile a = sourceFile b -> position a = position b ->
  lastReviewed a = lastReviewed b -> nextReview a = nextReview b ->
  easeFactor a = easeFactor b -> interval a = interval b ->
  reviewCount a = reviewCount b -> a = b.
Proof. destruct a, b; simpl; intros; now subst. Qed.

Lemma mergeCard_same_id existingCards card card' :
  id card = id card' ->
  lastReviewed card = lastReviewed card' ->
  nextReview card = nextReview card' ->
  sameSchedule (mergeCard existingCards card) (mergeCard existingCards card').
Proof.
  intros Hid Hlr Hnr. unfold mergeCard. rewrite Hid.
  destruct (existingCards !! id card'); now repeat split.
Qed.

Lemma mergeCard_again existingCards parsed card :
  Forall (fun c => lastReviewed c = None /\ nextReview c = None) parsed ->
  card ∈ parsed ->
  mergeCard (lookupById (mergeCard existingCards <$> parsed)) card
  = mergeCard existingCards card.
Proof.
  intros Hparsed Hin.
  assert (Hmerged : mergeCard existingCards card ∈ mergeCard existingCards <$> parsed)
    by (apply list_elem_of_fmap; eauto).
  apply lookupById_elem in Hmerged as (found & Hfound).
  destruct (mergeCard_text existingCards card) as (Hid & _).
  rewrite Hid in Hfound.
  apply lookupById_Some in Hfound as Hsplit.
  destruct Hsplit as (earlier & later & Hlist & Hfid & _).
  assert (Hin' : found ∈ mergeCard existingCards <$> parsed)
    by (rewrite Hlist; apply elem_of_app; right; apply list_elem_of_here).
  apply list_elem_of_fmap in Hin' as (card' & -> & Hcard').
  destruct (mergeCard_text existingCards card') as (Hid' & _).
  rewrite Hid' in Hfid.
  rewrite Forall_forall in Hparsed.
  destruct (Hparsed _ Hin) as (Hlr & Hnr). destruct (Hparsed _ Hcard') as (Hlr' & Hnr').
  destruct (mergeCard_same_id existingCards card card' (eq_sym Hfid))
    as (H1 & H2 & H3 & H4 & H5); [congruence|congruence|].
  destruct (mergeCard_text existingCards card) as (T1 & T2 & T3 & T4 & T5).
  unfold mergeCard at 1. rewrite Hfound.
  apply card_ext; simpl; congruence.
Qed.

(** X9: indexing an unchanged vault a second time changes no card of the
    store: every card keeps its text and its scheduling state. *)
Theorem reindexing_twice_changes_nothing
        (files : list MarkdownFile) (now1 now2 : Z) (p : Plugin) :
  storedCards (indexAnkiCards files now2 (indexAnkiCards files now1 p))
  = storedCards (indexAnkiCards files now1 p).
Proof.
  assert (Hstep : forall now q,
             storedCards (indexAnkiCards files now q)
             = if (0 <? Z.of_nat (length (scanVault (lookupById (storedCards q)) files)))
               then scanVault (lookupById (storedCards q)) files
               else storedCards q).
  { intros now q. unfold indexAnkiCards. rewrite existingCards_of_store.
    destruct (0 <? _); [apply storedCards_saveCardsToJson|reflexivity]. }
  rewrite (Hstep now2), (Hstep now1).
  destruct (0 <? Z.of_nat (length (scanVault (lookupById (storedCards p)) files)))
    eqn:Hfresh.
  - rewrite !scanVault_fmap.
    assert (Hsame : mergeCard (lookupById (mergeCard (lookupById (storedCards p))
                                             <$> (files ≫= parsedCardsOfFile)))
                      <$> (files ≫= parsedCardsOfFile)
                    = mergeCard (lookupById (storedCards p))
                        <$> (files ≫= parsedCardsOfFile)).
    { apply list_fmap_ext. intros i card Hcard. apply mergeCard_again.
      - apply Forall_forall. intros c Hc.
        apply list_elem_of_bind in Hc as (file & Hc & _).
        now apply (parsedCardsOfFile_unscheduled file).
      - apply list_elem_of_lookup. eauto. }
    rewrite Hsame. rewrite scanVault_fmap in Hfresh. now rewrite Hfresh.
  - now rewrite Hfresh.
Qed.

(** ** Invariants of the store *)

Lemma updateCardAfterReview_stored now card difficultyRating p :
  storedCards (updateCardAfterReview now card difficultyRating p).1
  = match list_find (fun c => id c = id card) (storedCards p) with
    | Some (cardIndex, _) =>
        <[cardIndex := calculateNextReview (settings p) now card difficultyRating]>
          (storedCards p)
    | None => storedCards p
    end.
Proof.
  unfold updateCardAfterReview, storedCards, loadCardData. simpl.
  destruct (dataFile p ≫= data_cards) as [d|] eqn:Hstore; simpl.
  - destruct (list_find _ (cards d)) as [[cardIndex found]|]; simpl; [reflexivity|].
    now rewrite Hstore.
  - now rewrite Hstore.
Qed.

Lemma indexAnkiCards_stored files now p :
  storedCards (indexAnkiCards files now p)
  = if (0 <? Z.of_nat (length (scanVault (lookupById (storedCards p)) files)))
    then scanVault (lookupById (storedCards p)) files
    else storedCards p.
Proof.
  unfold indexAnkiCards. rewrite existingCards_of_store.
  destruct (0 <? _); [apply storedCards_saveCardsToJson|reflexivity].
Qed.

Lemma calculateNextReview_initialized s now card difficultyRating :
  now <> 0 -> initialized (calculateNextReview s now card difficultyRating).
Proof.
  intros Hnow. repeat split; simpl; eauto.
  unfold neverReviewed. simpl. intros Hzero. apply Z.eqb_eq in Hzero. contradiction.
Qed.

Lemma mergeCard_initialized persisted card :
  Forall initialized persisted ->
  lastReviewed card = None -> nextReview card = None ->
  initialized (mergeCard (lookupById persisted) card).
Proof.
  intros Hstore Hlr Hnr. unfold mergeCard.
  destruct (lookupById persisted !! id card) as [existingCard|] eqn:Hlook.
  - apply lookupById_Some in Hlook as (earlier & later & -> & _ & _).
    rewrite Forall_forall in Hstore.
    destruct (Hstore existingCard) as (He & Hi & Hr & Hpair).
    { apply elem_of_app. right. apply list_elem_of_here. }
    repeat split; simpl; assumption.
  - repeat split; simpl; eauto. intros _. now rewrite Hnr.
Qed.

(** X10: the store keeps its shape. After an indexing pass and after a
    write-back the count stored beside the cards is still their number; and
    when every stored card has its ease factor, interval and review count set
    and has a next review date only if it has a review date, the same holds
    afterwards (for a write-back: at any clock reading other than 0). *)
Theorem store_shape_is_kept
        (files : list MarkdownFile) (now : Z) (card : AnkiCard)
        (difficultyRating : Z) (p : Plugin) :
  (countMatches p -> countMatches (indexAnkiCards files now p))
  /\ (countMatches p ->
      countMatches (updateCardAfterReview now card difficultyRating p).1)
  /\ (Forall initialized (storedCards p) ->
      Forall initialized (storedCards (indexAnkiCards files now p)))
  /\ (now <> 0 -> Forall initialized (storedCards p) ->
      Forall initialized
        (storedCards (updateCardAfterReview now card difficultyRating p).1)).
Proof.
  split; [|split; [|split]].
  - unfold countMatches, indexAnkiCards.
    destruct (0 <? _); [reflexivity|exact (fun H => H)].
  - unfold countMatches, updateCardAfterReview, loadCardData. simpl.
    destruct (dataFile p ≫= data_cards) as [d|] eqn:Hstore; simpl.
    + destruct (list_find _ (cards d)) as [[cardIndex found]|]; simpl.
      * intros Hcount. now rewrite length_insert.
      * now rewrite Hstore.
    + now rewrite Hstore.
  - intros Hstore. rewrite indexAnkiCards_stored.
    destruct (0 <? _); [|exact Hstore].
    rewrite scanVault_fmap. apply Forall_fmap, Forall_forall. intros parsed Hparsed.
    apply list_elem_of_bind in Hparsed as (file & Hparsed & _).
    apply parsedCardsOfFile_unscheduled in Hparsed as (Hlr & Hnr).
    now apply mergeCard_initialized.
  - intros Hnow Hstore. rewrite updateCardAfterReview_stored.
    destruct (list_find _ (storedCards p)) as [[cardIndex found]|]; [|exact Hstore].
    apply Forall_insert; [exact Hstore|].
    now apply calculateNextReview_initialized.
Qed.

Lemma store_shape_is_kept_witness :
  Forall initialized
    (storedCards (updateCardAfterReview 1700000500000 franceReviewed 3 storeWithFrance).1).
Proof.
  assert (Hnow : 1700000500000 <> 0) by lia.
  assert (Hstore : Forall initialized (storedCards storeWithFrance)).
  { repeat constructor; simpl; eauto. }
  exact (proj2 (proj2 (proj2 (store_shape_is_kept [] 1700000500000 franceReviewed 3
                                                  storeWithFrance))) Hnow Hstore).
Defined.

(** ** Review selector, continued *)

Lemma slice0_nil {A} (e : Z) : slice0 (@nil A) e = [].
Proof. unfold slice0. apply take_nil. Qed.

(** X11: on a store of initialized cards the pool of [reviewCards] is the
    due cards cut to [reviewsPerDay], always: a card without review date has
    no next review date and is due, so when no card is due none is left for
    the never-reviewed branch, and [newCardsPerDay] has no effect. *)
Theorem new_card_branch_is_empty
        (s : AnkiPluginSettings) (now : Z) (cards : list AnkiCard) :
  Forall initialized cards ->
  reviewPool s now cards = slice0 (List.filter (isDue now) cards) (reviewsPerDay s)
  /\ (List.filter (isDue now) cards = [] -> reviewPool s now cards = []).
Proof.
  intros Hcards.
  assert (Hnone : List.filter (isDue now) cards = [] ->
                  List.filter neverReviewed cards = []).
  { intros Hdue.
    destruct (List.filter neverReviewed cards) as [|card others] eqn:Hnever;
      [reflexivity|exfalso].
    assert (Hin : In card (List.filter neverReviewed cards))
      by (rewrite Hnever; now left).
    apply List.filter_In in Hin as (Hcard & Hnew).
    rewrite Forall_forall in Hcards.
    destruct (Hcards card) as (_ & _ & _ & Hpair); [now apply list_elem_of_In|].
    assert (Hisdue : In card (List.filter (isDue now) cards)).
    { apply List.filter_In. split; [exact Hcard|].
      unfold isDue. now rewrite (Hpair Hnew). }
    now rewrite Hdue in Hisdue. }
  unfold reviewPool.
  destruct (List.filter (isDue now) cards) as [|card due] eqn:Hdue.
  - simpl. rewrite (Hnone eq_refl), !slice0_nil. now split.
  - change (Z.of_nat (length (card :: due)) =? 0) with false. cbv iota.
    split; [reflexivity|discriminate].
Qed.

Lemma new_card_branch_is_empty_witness :
  reviewPool DEFAULT_SETTINGS 1700000500000 [franceReviewed; dueAgain]
  = slice0 (List.filter (isDue 1700000500000) [franceReviewed; dueAgain]) 50.
Proof.
  assert (Hstore : Forall initialized [franceReviewed; dueAgain]).
  { constructor; [|constructor; [|constructor]];
      (repeat split; simpl; try (eexists; reflexivity); discriminate). }
  exact (proj1 (new_card_branch_is_empty DEFAULT_SETTINGS 1700000500000
                                         [franceReviewed; dueAgain] Hstore)).
Defined.

Section SelectorReadOnly.

Variable sortRandom : list AnkiCard -> list AnkiCard.

Hypothesis sortRandom_permutes : forall array, sortRandom array ≡ₚ array.

(** X12: [reviewCards] only reads: the data object and the list of saves are
    as before. Every card it hands to the review is a stored card; when some
    stored card is due, every selected card is due, and otherwise every
    selected card has no review date. *)
Theorem review_selection_reads_only (now : Z) (p : Plugin) :
  dataFile (reviewCards sortRandom now p).1 = dataFile p
  /\ saved (reviewCards sortRandom now p).1 = saved p
  /\ settings (reviewCards sortRandom now p).1 = settings p
  /\ forall card,
      card ∈ cardsToReview (reviewCards sortRandom now p).2 ->
      card ∈ storedCards p
      /\ (isDue now card = true
          \/ (List.filter (isDue now) (storedCards p) = []
              /\ neverReviewed card = true)).
Proof.
  unfold reviewCards, storedCards, loadCardData. simpl.
  destruct (dataFile p ≫= data_cards) as [d|]; simpl;
    [|split; [|split; [|split]]; try reflexivity;
     intros card Hin; now apply elem_of_nil in Hin].
  destruct (Z.of_nat (length (cards d)) =? 0); simpl;
    [split; [|split; [|split]]; try reflexivity;
     intros card Hin; now apply elem_of_nil in Hin|].
  destruct (Z.of_nat (length (reviewPool (settings p) now (cards d))) =? 0); simpl;
    [split; [|split; [|split]]; try reflexivity;
     intros card Hin; now apply elem_of_nil in Hin|].
  split; [reflexivity|]. split; [reflexivity|]. split; [reflexivity|].
  intros card Hin.
  assert (Hpool : card ∈ reviewPool (settings p) now (cards d)).
  { eapply elem_of_submseteq; [exact Hin|].
    now apply getRandomSubset_submseteq. }
  unfold reviewPool in Hpool.
  destruct (List.filter (isDue now) (cards d)) as [|first due] eqn:Hdue.
  - simpl in Hpool.
    assert (Hnever : card ∈ List.filter neverReviewed (cards d))
      by (eapply elem_of_submseteq; [exact Hpool|apply slice0_submseteq]).
    apply list_elem_of_In, List.filter_In in Hnever as (Hcard & Hnew).
    split; [now apply list_elem_of_In|]. right. now split.
  - change (Z.of_nat (length (first :: due)) =? 0) with false in Hpool. cbv iota in Hpool.
    assert (Hisdue : card ∈ first :: due)
      by (eapply elem_of_submseteq; [exact Hpool|apply slice0_submseteq]).
    rewrite <- Hdue in Hisdue.
    apply list_elem_of_In, List.filter_In in Hisdue as (Hcard & Hisdue).
    split; [now apply list_elem_of_In|]. now left.
Qed.

End SelectorReadOnly.

Lemma review_selection_reads_only_witness :
  saved (reviewCards reverse 1000 storeOfFive).1 = saved storeOfFive.
Proof.
  exact (proj1 (proj2 (review_selection_reads_only
                         reverse (@reverse_Permutation AnkiCard) 1000 storeOfFive))).
Defined.

(** ** Sorting *)

Section DatedOrder.

Context {A : Type}.
Variable compare : A -> A -> Z.
Variable undated : A -> bool.
Variable stamp : A -> Z.

(** The comparator puts the undated elements first and orders the dated
    ones by their time stamp. *)
Hypothesis compare_le : forall a b,
  compare a b <= 0
  <-> undated a = true
      \/ (undated a = false /\ undated b = false /\ stamp a <= stamp b).

Lemma compare_total a b : compare a b <= 0 \/ compare b a <= 0.
Proof.
  rewrite !compare_le. destruct (undated a), (undated b); try tauto.
  destruct (Z.le_ge_cases (stamp a) (stamp b)); [left|right]; right; repeat split; lia.
Qed.

Lemma compare_trans a b c : compare a b <= 0 -> compare b c <= 0 -> compare a c <= 0.
Proof.
  rewrite !compare_le. intros [Ha|(Ha & Hb & Hab)] [Hb'|(Hb' & Hc & Hbc)];
    try tauto; try congruence.
  right. repeat split; try assumption. lia.
Qed.

Lemma insertSorted_Permutation x l : insertSorted compare x l ≡ₚ x :: l.
Proof.
  induction l as [|y l IH]; simpl; [reflexivity|].
  destruct (compare x y <=? 0); [reflexivity|].
  rewrite IH. apply Permutation_swap.
Qed.

Lemma sortStable_Permutation l : sortStable compare l ≡ₚ l.
Proof.
  induction l as [|x l IH]; simpl; [reflexivity|].
  unfold sortStable in IH. now rewrite insertSorted_Permutation, IH.
Qed.

Lemma insertSorted_ascending x l :
  ascending compare l -> ascending compare (insertSorted compare x l).
Proof.
  induction l as [|y l IH]; simpl; intros Hl; [now split|].
  destruct Hl as (Hy & Hl). destruct (compare x y <=? 0) eqn:Hxy.
  - apply Z.leb_le in Hxy. simpl. split; [|now split].
    constructor; [exact Hxy|].
    eapply Forall_impl; [exact Hy|]. intros z Hz. now apply (compare_trans x y z).
  - apply Z.leb_gt in Hxy. simpl. split; [|now apply IH].
    rewrite insertSorted_Permutation. constructor; [|exact Hy].
    destruct (compare_total x y); [lia|assumption].
Qed.

Lemma sortStable_ascending l : ascending compare (sortStable compare l).
Proof.
  induction l as [|x l IH]; simpl; [exact I|]. now apply insertSorted_ascending.
Qed.

(** In an ascending list every element of a front part is put before, or
    level with, every element behind it. *)
Lemma ascending_app l1 l2 :
  ascending compare (l1 ++ l2) ->
  forall x y, x ∈ l1 -> y ∈ l2 -> compare x y <= 0.
Proof.
  induction l1 as [|z l1 IH]; simpl; intros Hasc x y Hx Hy.
  - now apply elem_of_nil in Hx.
  - destruct Hasc as (Hz & Hasc). apply elem_of_cons in Hx as [->|Hx].
    + rewrite Forall_forall in Hz. apply Hz, elem_of_app. now right.
    + now apply IH.
Qed.

Lemma ascending_app_l l1 l2 : ascending compare (l1 ++ l2) -> ascending compare l1.
Proof.
  induction l1 as [|z l1 IH]; simpl; [easy|]. intros (Hz & Hasc).
  split; [|now apply IH]. now apply Forall_app in Hz as (Hz & _).
Qed.

End DatedOrder.

Lemma byLastReviewed_le a b :
  byLastReviewed a b <= 0
  <-> neverReviewed a = true
      \/ (neverReviewed a = false /\ neverReviewed b = false
          /\ reviewedAt a <= reviewedAt b).
Proof.
  unfold byLastReviewed, reviewedAt.
  destruct (neverReviewed a), (neverReviewed b); simpl; split; intros H;
    try lia; try tauto; try (now left).
  all: try (right; repeat split; lia).
  all: try (destruct H as [H|(H1 & H2 & H)]; try discriminate; lia).
Qed.

Lemma byNextReview_le a b :
  byNextReview a b <= 0
  <-> falsyZ (nextReview a) = true
      \/ (falsyZ (nextReview a) = false /\ falsyZ (nextReview b) = false
          /\ dueAt a <= dueAt b).
Proof.
  unfold byNextReview, dueAt.
  destruct (falsyZ (nextReview a)), (falsyZ (nextReview b)); simpl; split; intros H;
    try lia; try tauto; try (now left).
  all: try (right; repeat split; lia).
  all: try (destruct H as [H|(H1 & H2 & H)]; try discriminate; lia).
Qed.

(** ** Forced review *)

(** X13: a forced review reads the store without writing and takes the
    [cardsPerSession] least recently reviewed cards: the selection has
    [min(cardsPerSession, number of stored cards)] cards, it is in ascending
    order, and a selected card compared with any card left out was either
    never reviewed or was reviewed no later than it. *)
Theorem forced_review_takes_least_recent (p : Plugin) :
  0 <= cardsPerSession (settings p) ->
  dataFile (forceReviewCards p).1 = dataFile p
  /\ saved (forceReviewCards p).1 = saved p
  /\ Z.of_nat (length (cardsToReview (forceReviewCards p).2))
     = Z.min (cardsPerSession (settings p)) (Z.of_nat (length (storedCards p)))
  /\ ascending byLastReviewed (cardsToReview (forceReviewCards p).2)
  /\ exists rest,
      cardsToReview (forceReviewCards p).2 ++ rest ≡ₚ storedCards p
      /\ forall c d,
          c ∈ cardsToReview (forceReviewCards p).2 -> d ∈ rest ->
          neverReviewed c = true
          \/ (neverReviewed c = false /\ neverReviewed d = false
              /\ reviewedAt c <= reviewedAt d).
Proof.
  intros Hsize. unfold forceReviewCards, storedCards, loadCardData. simpl.
  assert (Hempty : forall q : Plugin,
             Z.of_nat (length (@nil AnkiCard)) = Z.min (cardsPerSession (settings p)) 0
             /\ ascending byLastReviewed (@nil AnkiCard)
             /\ exists rest : list AnkiCard,
                 [] ++ rest ≡ₚ []
                 /\ forall c d : AnkiCard,
                     c ∈ @nil AnkiCard -> d ∈ rest ->
                     neverReviewed c = true
                     \/ (neverReviewed c = false /\ neverReviewed d = false
                         /\ reviewedAt c <= reviewedAt d)).
  { intros _. split; [simpl; lia|]. split; [exact I|]. exists []. split; [reflexivity|].
    intros c d Hc. now apply elem_of_nil in Hc. }
  destruct (dataFile p ≫= data_cards) as [d|]; simpl;
    [|split; [reflexivity|split; [reflexivity|exact (Hempty p)]]].
  destruct (cards d) as [|first others] eqn:Hcards;
    [simpl; split; [reflexivity|split; [reflexivity|exact (Hempty p)]]|].
  rewrite <- Hcards.
  replace (Z.of_nat (length (cards d)) =? 0) with false
    by (rewrite Hcards; reflexivity).
  simpl. split; [reflexivity|]. split; [reflexivity|].
  pose proof (sortStable_Permutation byLastReviewed (cards d)) as Hperm.
  pose proof (sortStable_ascending byLastReviewed neverReviewed reviewedAt
                byLastReviewed_le (cards d)) as Hasc.
  set (sorted := sortStable byLastReviewed (cards d)) in *.
  assert (Hlen : length sorted = length (cards d)) by now rewrite Hperm.
  clearbody sorted. rewrite slice0_take by (apply Z.min_glb; lia).
  set (k := Z.to_nat (Z.min (cardsPerSession (settings p)) (Z.of_nat (length sorted)))).
  rewrite <- (take_drop k sorted) in Hasc.
  split; [|split].
  - rewrite length_take. subst k. rewrite Hlen. lia.
  - now apply (ascending_app_l byLastReviewed) in Hasc.
  - exists (drop k sorted). split; [now rewrite take_drop|].
    intros c d' Hc Hd. apply byLastReviewed_le.
    now apply (ascending_app byLastReviewed (take k sorted) (drop k sorted)).
Qed.

Lemma forced_review_takes_least_recent_witness :
  length (cardsToReview (forceReviewCards storeOfFive).2) = 3%nat.
Proof.
  assert (Hsize : 0 <= cardsPerSession (settings storeOfFive)) by (simpl; lia).
  destruct (forced_review_takes_least_recent storeOfFive Hsize)
    as (_ & _ & Hlen & _).
  apply Nat2Z.inj. rewrite Hlen. reflexivity.
Defined.

(** ** Card list *)

(** X14: the card list shows every stored card once, the cards without a
    next review date first and the others by ascending next review date: of
    two entries the earlier one has no date, or both have one and the
    earlier entry is due no later. *)
Theorem card_list_is_ordered_by_due_date (cards : list AnkiCard) :
  sortedCards cards ≡ₚ cards
  /\ forall i j x y,
      (i < j)%nat ->
      sortedCards cards !! i = Some x ->
      sortedCards cards !! j = Some y ->
      falsyZ (nextReview x) = true
      \/ (falsyZ (nextReview x) = false /\ falsyZ (nextReview y) = false
          /\ dueAt x <= dueAt y).
Proof.
  split; [apply sortStable_Permutation|].
  intros i j x y Hij Hx Hy. apply byNextReview_le.
  pose proof (sortStable_ascending byNextReview (fun c => falsyZ (nextReview c)) dueAt
                byNextReview_le cards) as Hasc.
  fold (sortedCards cards) in Hasc.
  rewrite <- (take_drop j (sortedCards cards)) in Hasc.
  apply (ascending_app byNextReview (take j (sortedCards cards))
                       (drop j (sortedCards cards)) Hasc).
  - apply list_elem_of_lookup. exists i. now rewrite lookup_take_lt.
  - apply list_elem_of_lookup. exists O. now rewrite lookup_drop, Nat.add_0_r.
Qed.

(** A new card comes first, then the cards by due date. *)
Example card_list_of_three :
  sortedCards [franceReviewed; strangerCard; dueAgain]
  = [strangerCard; dueAgain; franceReviewed].
Proof. reflexivity. Qed.

Lemma truncateText_spec text maxLength :
  0 <= maxLength ->
  (Z.of_nat (length text) <= maxLength -> truncateText text maxLength = text)
  /\ (maxLength < Z.of_nat (length text) ->
      truncateText text maxLength = take (Z.to_nat maxLength) text ++ str "..."
      /\ Z.of_nat (length (truncateText text maxLength)) = maxLength + 3)
  /\ take (Z.to_nat maxLength) (truncateText text maxLength)
     = take (Z.to_nat maxLength) text.
Proof.
  intros Hmax. unfold truncateText.
  destruct (Z.of_nat (length text) <=? maxLength) eqn:Hshort.
  - apply Z.leb_le in Hshort. split; [reflexivity|]. split; [lia|reflexivity].
  - apply Z.leb_gt in Hshort. split; [lia|]. split.
    + intros _. split; [reflexivity|].
      rewrite length_app, length_take. simpl length. lia.
    + rewrite take_app_le by (rewrite length_take; lia). apply take_idemp.
Qed.

Lemma replaceLineBreaks_no_LF s : LF ∉ replaceLineBreaks s.
Proof.
  unfold replaceLineBreaks. intros Hin.
  apply list_elem_of_fmap in Hin as (c & Hc & _).
  destruct (c =? LF) eqn:Heq; [discriminate|].
  apply Z.eqb_neq in Heq. congruence.
Qed.

(** X15: the title of a list entry is the front of the card with every line
    break turned into a space, cut to 50 code units and marked with three
    dots when it was longer: it has no line break, at most 53 code units, the
    same first 50 code units, and a front of up to 50 code units is shown in
    full. *)
Theorem list_title_is_one_short_line (card : AnkiCard) :
  (LF ∉ listTitle card)
  /\ (length (listTitle card) <= 53)%nat
  /\ take 50 (listTitle card) = take 50 (replaceLineBreaks (front card))
  /\ ((length (front card) <= 50)%nat ->
      listTitle card = replaceLineBreaks (front card))
  /\ ((50 < length (front card))%nat ->
      listTitle card = take 50 (replaceLineBreaks (front card)) ++ str "...").
Proof.
  unfold listTitle.
  assert (Hmax : 0 <= 50) by lia.
  destruct (truncateText_spec (replaceLineBreaks (front card)) 50 Hmax)
    as (Hshort & Hlong & Hprefix).
  assert (Hlen : length (replaceLineBreaks (front card)) = length (front card))
    by (unfold replaceLineBreaks; apply length_fmap).
  rewrite Hlen in Hshort, Hlong.
  split; [|split; [|split; [exact Hprefix|split]]].
  - destruct (Z_le_gt_dec (Z.of_nat (length (front card))) 50) as [Hle|Hgt].
    + rewrite (Hshort Hle). apply replaceLineBreaks_no_LF.
    + destruct Hlong as (-> & _); [lia|]. intros Hin.
      apply elem_of_app in Hin as [Hin|Hin].
      * apply (replaceLineBreaks_no_LF (front card)).
        eapply elem_of_submseteq; [exact Hin|apply submseteq_take].
      * vm_compute in Hin. repeat (apply elem_of_cons in Hin as [Hin|Hin];
                                   [discriminate|]).
        now apply elem_of_nil in Hin.
  - destruct (Z_le_gt_dec (Z.of_nat (length (front card))) 50) as [Hle|Hgt].
    + rewrite (Hshort Hle), Hlen. lia.
    + destruct Hlong as (_ & Hl); [lia|]. lia.
  - intros Hle. apply Hshort. lia.
  - intros Hgt. apply Hlong. lia.
Qed.

(** ** SRS scheduler, continued *)

Lemma orDefaultZ_interval card :
  intervalNotNegative card -> 0 <= orDefaultZ (interval card) 0.
Proof.
  unfold intervalNotNegative, orDefaultZ, falsyZ.
  destruct (interval card) as [days|]; [|simpl; lia].
  intros Hdays. destruct (days =? 0); simpl; lia.
Qed.

Lemma round_le x y : (x <= y)%Q -> round x <= round y.
Proof. intros Hxy. unfold round. apply Qfloor_resp_le. lra. Qed.

Lemma round_ge_Z (n : Z) x : (inject_Z n <= x + (1 # 2))%Q -> n <= round x.
Proof.
  intros Hx. unfold round. rewrite <- (Qfloor_Z n). now apply Qfloor_resp_le.
Qed.

Lemma scaled_interval_ge (old : Z) (ease modifier low : Q) :
  1 <= old -> (0 <= low)%Q -> (low <= ease * modifier)%Q ->
  (inject_Z old * low <= inject_Z old * ease * modifier)%Q.
Proof.
  intros Hold Hlow Hprod.
  assert (Hq : (1 <= inject_Z old)%Q).
  { change 1%Q with (inject_Z 1). rewrite <- Zle_Qle. exact Hold. }
  rewrite <- Qmult_assoc. apply Qmult_le_l; [lra|exact Hprod].
Qed.

(** X16: under the documented settings a rated card is scheduled ahead: for
    a card with an ease factor in bounds and an interval that is not
    negative, the new interval is at least one day, so the card is not due
    at the time of the review nor at any time before its next review date,
    and it is due from that date on. *)
Theorem reviewed_card_is_scheduled_ahead
        (s : AnkiPluginSettings) (now : Z) (card : AnkiCard) (difficultyRating : Z) :
  ratingInRange difficultyRating ->
  0 < now ->
  (1 <= easyBonus s <= 2)%Q ->
  (0.5 <= intervalModifier s <= 2)%Q ->
  30 <= maxInterval s <= 1000 ->
  easeUnsetOrInBounds card ->
  intervalNotNegative card ->
  let card' := calculateNextReview s now card difficultyRating in
  1 <= intervalOf card'
  /\ nextReview card' = Some (now + intervalOf card' * millisecondsPerDay)
  /\ isDue now card' = false
  /\ forall t, isDue t card' = true <-> now + intervalOf card' * millisecondsPerDay <= t.
Proof.
  intros Hrating Hnow Hbonus Hmod Hmax Hease Hinterval. cbv zeta.
  assert (Hdays : 1 <= intervalOf (calculateNextReview s now card difficultyRating)).
  { unfold intervalOf. rewrite calculateNextReview_interval. simpl.
    unfold updateInterval.
    pose proof (orDefaultZ_interval card Hinterval) as Hold.
    destruct (orDefaultZ (interval card) 0 =? 0) eqn:Hzero.
    - destruct Hrating as [-> | [-> | ->]]; simpl; lia.
    - apply Z.eqb_neq in Hzero. apply Z.min_glb; [|lia].
      apply round_ge_Z.
      pose proof (updateEase_in_bounds s _ difficultyRating Hbonus
                    (orDefaultQ_in_bounds card Hease)) as [Hlo _].
      assert (Hprod : (0.65 <= updateEase s (orDefaultQ (easeFactor card) 2.5)
                                          difficultyRating
                               * intervalModifier s)%Q) by nra.
      pose proof (scaled_interval_ge (orDefaultZ (interval card) 0) _ _ 0.65%Q
                    ltac:(lia) ltac:(lra) Hprod) as Hscaled.
      assert (Hq : (1 <= inject_Z (orDefaultZ (interval card) 0))%Q).
      { change 1%Q with (inject_Z 1). rewrite <- Zle_Qle. lia. }
      change (inject_Z 1) with 1%Q. lra. }
  split; [exact Hdays|]. split; [reflexivity|].
  assert (Hdue : forall t,
             isDue t (calculateNextReview s now card difficultyRating) = true
             <-> now + intervalOf (calculateNextReview s now card difficultyRating)
                       * millisecondsPerDay <= t).
  { intros t.
    pose proof (eq_refl : nextReview (calculateNextReview s now card difficultyRating)
                          = Some (now + intervalOf (calculateNextReview s now card
                                                      difficultyRating)
                                        * millisecondsPerDay)) as Hnr.
    unfold isDue. rewrite !Hnr.
    assert (Hpos : 0 < now + intervalOf (calculateNextReview s now card difficultyRating)
                             * millisecondsPerDay)
      by (unfold millisecondsPerDay; lia).
    set (due := now + intervalOf (calculateNextReview s now card difficultyRating)
                      * millisecondsPerDay) in *.
    unfold falsyZ. destruct (due =? 0) eqn:Hz; [apply Z.eqb_eq in Hz; lia|]. simpl.
    apply Z.leb_le. }
  split; [|exact Hdue].
  destruct (isDue now (calculateNextReview s now card difficultyRating)) eqn:Hnowdue;
    [|reflexivity].
  apply Hdue in Hnowdue. unfold millisecondsPerDay in Hnowdue. lia.
Qed.

Lemma reviewed_card_is_scheduled_ahead_witness :
  isDue 259300000 (calculateNextReview DEFAULT_SETTINGS 259300000 dueAgain 2) = false.
Proof.
  refine (proj1 (proj2 (proj2 (reviewed_card_is_scheduled_ahead
                                 DEFAULT_SETTINGS 259300000 dueAgain 2 _ _ _ _ _ _ _)))).
  - right. left. reflexivity.
  - lia.
  - simpl. lra.
  - simpl. lra.
  - simpl. lia.
  - right. exists 2.5%Q. split; [reflexivity|lra].
  - unfold intervalNotNegative. simpl. lia.
Defined.

Lemma updateEase_monotone s q :
  (0 <= easyBonus s)%Q -> (1.3 <= q <= 2.5)%Q ->
  (updateEase s q 1 <= updateEase s q 2 <= updateEase s q 3)%Q.
Proof.
  intros Hbonus [Hlo Hhi]. unfold updateEase. simpl. split.
  - apply Q.max_lub; lra.
  - apply Q.min_glb; [lra|]. nra.
Qed.

Lemma updateInterval_monotone s old e1 e2 r1 r2 :
  0 <= old -> (0 <= intervalModifier s)%Q -> (e1 <= e2)%Q ->
  (r1 = 1 /\ r2 = 2) \/ (r1 = 2 /\ r2 = 3) ->
  updateInterval s old e1 r1 <= updateInterval s old e2 r2.
Proof.
  intros Hold Hmod He Hr. unfold updateInterval. destruct (old =? 0).
  - destruct Hr as [[-> ->]|[-> ->]]; simpl; lia.
  - apply Z.min_le_compat_r, round_le.
    assert (Hq : (0 <= inject_Z old)%Q).
    { change 0%Q with (inject_Z 0). rewrite <- Zle_Qle. exact Hold. }
    apply Qmult_le_compat_r; [|exact Hmod].
    rewrite !(Qmult_comm (inject_Z old)). now apply Qmult_le_compat_r.
Qed.

(** X17: an easier rating never schedules sooner. For a card with an ease
    factor in bounds and an interval that is not negative, under an
    [easyBonus] and an [intervalModifier] that are not negative, Hard, Good
    and Easy give ascending ease factors, ascending intervals and ascending
    next review dates. *)
Theorem easier_rating_never_schedules_sooner
        (s : AnkiPluginSettings) (now : Z) (card : AnkiCard) :
  (0 <= easyBonus s)%Q ->
  (0 <= intervalModifier s)%Q ->
  easeUnsetOrInBounds card ->
  intervalNotNegative card ->
  let hard := calculateNextReview s now card 1 in
  let good := calculateNextReview s now card 2 in
  let easy := calculateNextReview s now card 3 in
  (easeOf hard <= easeOf good <= easeOf easy)%Q
  /\ intervalOf hard <= intervalOf good <= intervalOf easy
  /\ dueAt hard <= dueAt good <= dueAt easy.
Proof.
  intros Hbonus Hmod Hease Hinterval. cbv zeta.
  pose proof (updateEase_monotone s _ Hbonus (orDefaultQ_in_bounds card Hease))
    as [Hhg Hge].
  pose proof (orDefaultZ_interval card Hinterval) as Hold.
  assert (Hi1 : intervalOf (calculateNextReview s now card 1)
                <= intervalOf (calculateNextReview s now card 2)).
  { unfold intervalOf. rewrite !calculateNextReview_interval. simpl default.
    apply updateInterval_monotone; auto. }
  assert (Hi2 : intervalOf (calculateNextReview s now card 2)
                <= intervalOf (calculateNextReview s now card 3)).
  { unfold intervalOf. rewrite !calculateNextReview_interval. simpl default.
    apply updateInterval_monotone; auto. }
  split; [|split].
  - unfold easeOf. rewrite !calculateNextReview_ease. simpl default. now split.
  - now split.
  - assert (Hdue : forall r, dueAt (calculateNextReview s now card r)
                             = now + intervalOf (calculateNextReview s now card r)
                                     * millisecondsPerDay) by reflexivity.
    rewrite !Hdue. unfold millisecondsPerDay. lia.
Qed.

Lemma easier_rating_never_schedules_sooner_witness :
  intervalOf (calculateNextReview DEFAULT_SETTINGS 259300000 dueAgain 1)
  <= intervalOf (calculateNextReview DEFAULT_SETTINGS 259300000 dueAgain 2).
Proof.
  refine (proj1 (proj1 (proj2 (easier_rating_never_schedules_sooner
                                 DEFAULT_SETTINGS 259300000 dueAgain _ _ _ _)))).
  - simpl. lra.
  - simpl. lra.
  - right. exists 2.5%Q. split; [reflexivity|lra].
  - unfold intervalNotNegative. simpl. lia.
Defined.

(** X18: with an [intervalModifier] of at least 1 a review never shortens
    the interval of a card that was scheduled before: the new interval is at
    least the old one, or the cap [maxInterval] when the old one was above
    it. *)
Theorem interval_never_shrinks
        (s : AnkiPluginSettings) (now : Z) (card : AnkiCard)
        (difficultyRating old : Z) :
  (1 <= easyBonus s <= 2)%Q ->
  (1 <= intervalModifier s)%Q ->
  easeUnsetOrInBounds card ->
  interval card = Some old ->
  1 <= old ->
  Z.min old (maxInterval s)
  <= intervalOf (calculateNextReview s now card difficultyRating).
Proof.
  intros Hbonus Hmod Hease Hold Hpos.
  unfold intervalOf. rewrite calculateNextReview_interval. simpl default.
  assert (Hinterval : orDefaultZ (interval card) 0 = old).
  { unfold orDefaultZ, falsyZ. rewrite Hold.
    destruct (old =? 0) eqn:Hz; [apply Z.eqb_eq in Hz; lia|reflexivity]. }
  rewrite Hinterval. unfold updateInterval.
  destruct (old =? 0) eqn:Hz; [apply Z.eqb_eq in Hz; lia|].
  apply Z.min_le_compat_r, round_ge_Z.
  pose proof (updateEase_in_bounds s _ difficultyRating Hbonus
                (orDefaultQ_in_bounds card Hease)) as [Hlo _].
  assert (Hprod : (1 <= updateEase s (orDefaultQ (easeFactor card) 2.5) difficultyRating
                        * intervalModifier s)%Q) by nra.
  pose proof (scaled_interval_ge old _ _ 1%Q Hpos ltac:(lra) Hprod) as Hscaled.
  lra.
Qed.

Lemma interval_never_shrinks_witness :
  Z.min 3 (maxInterval DEFAULT_SETTINGS)
  <= intervalOf (calculateNextReview DEFAULT_SETTINGS 259300000 dueAgain 1).
Proof.
  refine (interval_never_shrinks DEFAULT_SETTINGS 259300000 dueAgain 1 3 _ _ _ _ _).
  - simpl. lra.
  - simpl. lra.
  - right. exists 2.5%Q. split; [reflexivity|lra].
  - reflexivity.
  - lia.
Defined.

Lemma orDefaultZ_zero v : orDefaultZ (Some v) 0 = v.
Proof.
  unfold orDefaultZ, falsyZ. destruct (v =? 0) eqn:Hz; [|reflexivity].
  apply Z.eqb_eq in Hz. now subst.
Qed.

Lemma reviewHistory_length reviews : forall card,
  length (reviewHistory card reviews) = length reviews.
Proof.
  induction reviews as [|r reviews IH]; intros card; simpl; [reflexivity|].
  now rewrite IH.
Qed.

Lemma reviewHistory_last card : forall reviews r,
  exists final,
    last (reviewHistory card (reviews ++ [r])) = Some final
    /\ reviewCount final
       = Some (orDefaultZ (reviewCount card) 0 + Z.of_nat (length (reviews ++ [r])))
    /\ lastReviewed final = Some (clock r)
    /\ id final = id card /\ front final = front card /\ back final = back card
    /\ sourceFile final = sourceFile card /\ position final = position card.
Proof.
  intros reviews. revert card.
  induction reviews as [|r0 reviews IH]; intros card r.
  - eexists. split; [reflexivity|]. simpl. now repeat split.
  - destruct (IH (calculateNextReview (inForce r0) (clock r0) card (rating r0)) r)
      as (final & Hlast & Hcount & Hclock & Hid & Hf & Hb & Hs & Hp).
    exists final. split.
    + change (reviewHistory card ((r0 :: reviews) ++ [r]))
        with (calculateNextReview (inForce r0) (clock r0) card (rating r0)
                :: reviewHistory (calculateNextReview (inForce r0) (clock r0) card
                                    (rating r0))
                     (reviews ++ [r])).
      destruct (reviewHistory _ (reviews ++ [r])) eqn:Hhist; [discriminate|].
      exact Hlast.
    + repeat split; try assumption.
      rewrite Hcount. simpl reviewCount. rewrite orDefaultZ_zero.
      f_equal. simpl length. lia.
Qed.

(** X19: the review count counts the reviews. After a sequence of reviews,
    whatever the ratings and settings, the count of the card is its former
    count (0 when unset) plus the number of reviews, its [lastReviewed] is
    the time of the last review, and its id, text and provenance are as
    before. *)
Theorem review_count_counts_reviews (card : AnkiCard) (reviews : list Review) (r : Review) :
  exists final,
    last (reviewHistory card (reviews ++ [r])) = Some final
    /\ reviewCount final
       = Some (orDefaultZ (reviewCount card) 0 + Z.of_nat (length (reviews ++ [r])))
    /\ lastReviewed final = Some (clock r)
    /\ id final = id card /\ front final = front card /\ back final = back card
    /\ sourceFile final = sourceFile card /\ position final = position card
    /\ length (reviewHistory card (reviews ++ [r])) = length (reviews ++ [r]).
Proof.
  destruct (reviewHistory_last card reviews r)
    as (final & Hlast & Hcount & Hclock & Hid & Hf & Hb & Hs & Hp).
  exists final. repeat split; try assumption. apply reviewHistory_length.
Qed.

(** ** Write-back, continued *)

Lemma NoDup_fmap_eq {A B} (f : A -> B) (l : list A) x y :
  NoDup (f <$> l) -> x ∈ l -> y ∈ l -> f x = f y -> x = y.
Proof.
  induction l as [|z l IH]; intros Hnodup Hx Hy Hf.
  - now apply elem_of_nil in Hx.
  - rewrite fmap_cons in Hnodup. apply NoDup_cons in Hnodup as (Hz & Hnodup).
    apply elem_of_cons in Hx as [->|Hx]; apply elem_of_cons in Hy as [->|Hy].
    + reflexivity.
    + exfalso. apply Hz. rewrite Hf. apply list_elem_of_fmap. eauto.
    + exfalso. apply Hz. rewrite <- Hf. apply list_elem_of_fmap. eauto.
    + now apply IH.
Qed.

(** What a write-back does when the store holds the id: the first entry
    with the id, at [cardIndex], is replaced and the data object is saved
    once. *)
Lemma updateCardAfterReview_found now card difficultyRating p old :
  old ∈ storedCards p -> id old = id card ->
  exists cardIndex found,
    list_find (fun c => id c = id card) (storedCards p) = Some (cardIndex, found)
    /\ storedCards p !! cardIndex = Some found
    /\ id found = id card
    /\ storedCards (updateCardAfterReview now card difficultyRating p).1
       = <[cardIndex := calculateNextReview (settings p) now card difficultyRating]>
           (storedCards p)
    /\ length (saved (updateCardAfterReview now card difficultyRating p).1)
       = S (length (saved p)).
Proof.
  intros Hold Hid.
  destruct (list_find_elem_of (fun c => id c = id card) (storedCards p) old Hold Hid)
    as ([cardIndex found] & Hfind).
  exists cardIndex, found. split; [exact Hfind|].
  apply list_find_Some in Hfind as Hspec. destruct Hspec as (Hlookup & Hfid & _).
  split; [exact Hlookup|]. split; [exact Hfid|].
  split; [now rewrite updateCardAfterReview_stored, Hfind|].
  revert Hfind. unfold updateCardAfterReview, storedCards, loadCardData. simpl.
  destruct (dataFile p ≫= data_cards) as [d|]; simpl.
  - intros Hfind. now rewrite Hfind.
  - intros Hfind. discriminate.
Qed.

(** X20: a write-back keeps the ids of the store in place, and what it
    writes is what the next lookup by id finds: the first stored card with
    the id is then the reviewed card, and with ids that are unique the lookup
    table of the next indexing pass answers the reviewed card. *)
Theorem write_back_is_found_again
        (now : Z) (card : AnkiCard) (difficultyRating : Z) (p : Plugin) :
  let card' := calculateNextReview (settings p) now card difficultyRating in
  let p' := (updateCardAfterReview now card difficultyRating p).1 in
  id <$> storedCards p' = id <$> storedCards p
  /\ ((exists old, old ∈ storedCards p /\ id old = id card) ->
      (exists cardIndex,
          list_find (fun c => id c = id card) (storedCards p') = Some (cardIndex, card'))
      /\ (NoDup (id <$> storedCards p) ->
          lookupById (storedCards p') !! id card = Some card')).
Proof.
  cbv zeta.
  assert (Hids : id <$> storedCards (updateCardAfterReview now card difficultyRating p).1
                 = id <$> storedCards p).
  { rewrite updateCardAfterReview_stored.
    destruct (list_find _ (storedCards p)) as [[cardIndex found]|] eqn:Hfind;
      [|reflexivity].
    apply list_find_Some in Hfind as (Hlookup & Hfid & _).
    rewrite list_fmap_insert. apply list_insert_id.
    rewrite list_lookup_fmap, Hlookup. simpl. now rewrite Hfid. }
  split; [exact Hids|]. intros (old & Hold & Hid).
  destruct (updateCardAfterReview_found now card difficultyRating p old Hold Hid)
    as (cardIndex & found & Hfind & Hlookup & Hfid & Hstored & _).
  apply list_find_Some in Hfind as (_ & _ & Hfirst).
  assert (Hbound : (cardIndex < length (storedCards p))%nat)
    by (eapply lookup_lt_Some; exact Hlookup).
  assert (Hat : storedCards (updateCardAfterReview now card difficultyRating p).1
                  !! cardIndex
                = Some (calculateNextReview (settings p) now card difficultyRating))
    by (rewrite Hstored; now apply list_lookup_insert_eq).
  split.
  - exists cardIndex. apply list_find_Some. split; [exact Hat|]. split; [reflexivity|].
    intros j y Hj Hlt. rewrite Hstored, list_lookup_insert_ne in Hj by lia.
    now apply (Hfirst j y).
  - intros Hnodup. rewrite <- Hids in Hnodup.
    assert (Hin : calculateNextReview (settings p) now card difficultyRating
                    ∈ storedCards (updateCardAfterReview now card difficultyRating p).1)
      by (apply list_elem_of_lookup; eauto).
    destruct (lookupById_elem _ _ Hin) as (c & Hc).
    rewrite calculateNextReview_id in Hc. rewrite Hc. f_equal.
    apply lookupById_Some in Hc as (earlier & later & Hsplit & Hcid & _).
    apply (NoDup_fmap_eq id _ _ _ Hnodup).
    + rewrite Hsplit. apply elem_of_app. right. apply list_elem_of_here.
    + exact Hin.
    + now rewrite calculateNextReview_id.
Qed.

Lemma write_back_is_found_again_witness :
  lookupById (storedCards (updateCardAfterReview 1700000500000 franceReviewed 3
                                                 storeWithFrance).1)
    !! id franceReviewed
  = Some (calculateNextReview DEFAULT_SETTINGS 1700000500000 franceReviewed 3).
Proof.
  assert (Hold : exists old, old ∈ storedCards storeWithFrance /\ id old = id franceReviewed)
    by (exists franceReviewed; split; [apply list_elem_of_here|reflexivity]).
  assert (Hnodup : NoDup (id <$> storedCards storeWithFrance))
    by (apply NoDup_singleton).
  exact (proj2 (proj2 (write_back_is_found_again 1700000500000 franceReviewed 3
                                                 storeWithFrance) Hold) Hnodup).
Defined.

Lemma updateCardAfterReview_settings now card difficultyRating p :
  settings (updateCardAfterReview now card difficultyRating p).1 = settings p
  /\ (updateCardAfterReview now card difficultyRating p).2
     = calculateNextReview (settings p) now card difficultyRating.
Proof.
  unfold updateCardAfterReview, loadCardData. simpl.
  destruct (dataFile p ≫= data_cards) as [d|]; simpl; [|now split].
  destruct (list_find _ (cards d)) as [[cardIndex found]|]; now split.
Qed.

Lemma updateCardAfterReview_ids now card difficultyRating p :
  id <$> storedCards (updateCardAfterReview now card difficultyRating p).1
  = id <$> storedCards p.
Proof.
  rewrite updateCardAfterReview_stored.
  destruct (list_find _ (storedCards p)) as [[cardIndex found]|] eqn:Hfind;
    [|reflexivity].
  apply list_find_Some in Hfind as (Hlookup & Hfid & _).
  rewrite list_fmap_insert. apply list_insert_id.
  rewrite list_lookup_fmap, Hlookup. simpl. now rewrite Hfid.
Qed.

Lemma updateCardAfterReview_missing now card difficultyRating p :
  (forall c, c ∈ storedCards p -> id c <> id card) ->
  saved (updateCardAfterReview now card difficultyRating p).1 = saved p.
Proof.
  intros Hnone. unfold updateCardAfterReview, storedCards, loadCardData in *.
  simpl in *.
  destruct (dataFile p ≫= data_cards) as [d|]; simpl; [|reflexivity].
  destruct (list_find _ (cards d)) as [[cardIndex found]|] eqn:Hfind; [|reflexivity].
  apply list_find_Some in Hfind as (Hlookup & Hid & _). exfalso.
  apply (Hnone found); [|exact Hid].
  apply list_elem_of_lookup. now exists cardIndex.
Qed.

Lemma writeBacks_ids ratings : forall p,
  id <$> storedCards (writeBacks ratings p) = id <$> storedCards p.
Proof.
  induction ratings as [|r ratings IH]; intros p; [reflexivity|].
  unfold writeBacks in *. cbn [foldl]. rewrite IH. apply updateCardAfterReview_ids.
Qed.

(** After an indexing pass that found cards, the ids of the store are the
    ids of the cards found. *)
Lemma indexAnkiCards_ids files now p :
  files ≫= parsedCardsOfFile <> [] ->
  id <$> storedCards (indexAnkiCards files now p) = id <$> (files ≫= parsedCardsOfFile).
Proof.
  intros Hfound. rewrite indexAnkiCards_stored, scanVault_fmap, length_fmap.
  destruct (files ≫= parsedCardsOfFile) as [|parsed rest] eqn:Hparsed; [contradiction|].
  cbn [length]. destruct (0 <? _) eqn:Hcmp; [|apply Z.ltb_ge in Hcmp; lia].
  rewrite <- list_fmap_compose. apply list_fmap_ext. intros i card _.
  simpl. apply mergeCard_text.
Qed.

Lemma forceReviewCards_selection_stored p card :
  card ∈ cardsToReview (forceReviewCards p).2 -> card ∈ storedCards p.
Proof.
  unfold forceReviewCards, storedCards, loadCardData. simpl.
  destruct (dataFile p ≫= data_cards) as [d|]; simpl; [|easy].
  destruct (Z.of_nat (length (cards d)) =? 0); simpl.
  - intros Hin. now apply elem_of_nil in Hin.
  - intros Hin. rewrite <- (sortStable_Permutation byLastReviewed (cards d)).
    eapply elem_of_submseteq; [exact Hin|apply slice0_submseteq].
Qed.

Section SessionWriteBack.

Variable sortRandom : list AnkiCard -> list AnkiCard.

Hypothesis sortRandom_permutes : forall array, sortRandom array ≡ₚ array.

Lemma reviewCards_selection_stored now p card :
  card ∈ cardsToReview (reviewCards sortRandom now p).2 -> card ∈ storedCards p.
Proof.
  unfold reviewCards, storedCards, loadCardData. simpl.
  destruct (dataFile p ≫= data_cards) as [d|]; simpl; [|easy].
  destruct (Z.of_nat (length (cards d)) =? 0); simpl;
    [intros Hin; now apply elem_of_nil in Hin|].
  destruct (Z.of_nat (length (reviewPool (settings p) now (cards d))) =? 0); simpl;
    [intros Hin; now apply elem_of_nil in Hin|].
  intros Hin.
  assert (Hpool : card ∈ reviewPool (settings p) now (cards d)).
  { eapply elem_of_submseteq; [exact Hin|]. now apply getRandomSubset_submseteq. }
  unfold reviewPool in Hpool.
  destruct (Z.of_nat (length (List.filter (isDue now) (cards d))) =? 0).
  - assert (Hf : card ∈ List.filter neverReviewed (cards d))
      by (eapply elem_of_submseteq; [exact Hpool|apply slice0_submseteq]).
    apply list_elem_of_In, List.filter_In in Hf as (Hcard & _).
    now apply list_elem_of_In.
  - assert (Hf : card ∈ List.filter (isDue now) (cards d))
      by (eapply elem_of_submseteq; [exact Hpool|apply slice0_submseteq]).
    apply list_elem_of_In, List.filter_In in Hf as (Hcard & _).
    now apply list_elem_of_In.
Qed.

(** X21: the rating of a card that a review session or a forced review
    handed out is written back whenever nothing but ratings has been written
    to the store since the cards were chosen, so for every card of a session
    in its turn: the id is still found, the data object is saved once, the
    store then holds the reviewed card and has as many cards as before. An
    indexing pass in between breaks this: if it finds cards, none of them
    with the id of the card, the rating is not saved. *)
Theorem selected_card_is_written_back
        (now reviewedAtTime difficultyRating : Z) (p : Plugin) (card : AnkiCard)
        (earlier : list (Z * AnkiCard * Z)) :
  card ∈ cardsToReview (reviewCards sortRandom now p).2
  \/ card ∈ cardsToReview (forceReviewCards p).2 ->
  (let q := writeBacks earlier p in
   let q' := (updateCardAfterReview reviewedAtTime card difficultyRating q).1 in
   length (saved q') = S (length (saved q))
   /\ calculateNextReview (settings q) reviewedAtTime card difficultyRating
        ∈ storedCards q'
   /\ length (storedCards q') = length (storedCards q))
  /\ (forall files later,
         files ≫= parsedCardsOfFile <> [] ->
         (forall parsed, parsed ∈ files ≫= parsedCardsOfFile -> id parsed <> id card) ->
         let q := indexAnkiCards files later (writeBacks earlier p) in
         saved (updateCardAfterReview reviewedAtTime card difficultyRating q).1
         = saved q).
Proof.
  intros Hselected. cbv zeta.
  assert (Hstored : card ∈ storedCards p).
  { destruct Hselected as [Hin|Hin];
      [now apply (reviewCards_selection_stored now)
      |now apply forceReviewCards_selection_stored]. }
  split.
  - assert (Hkept : id card ∈ (id <$> storedCards (writeBacks earlier p))).
    { rewrite writeBacks_ids. apply list_elem_of_fmap. now exists card. }
    apply list_elem_of_fmap in Hkept as (old & Hid & Hold).
    destruct (updateCardAfterReview_found reviewedAtTime card difficultyRating
                (writeBacks earlier p) old Hold (eq_sym Hid))
      as (cardIndex & found & _ & Hlookup & _ & Hnew & Hsaved).
    split; [exact Hsaved|]. rewrite Hnew. split; [|apply length_insert].
    apply list_elem_of_lookup. exists cardIndex. apply list_lookup_insert_eq.
    eapply lookup_lt_Some. exact Hlookup.
  - intros files later Hfound Hother. apply updateCardAfterReview_missing.
    intros c Hc Hid.
    assert (Hcid : id c ∈ (id <$> storedCards
                                    (indexAnkiCards files later (writeBacks earlier p))))
      by (apply list_elem_of_fmap; now exists c).
    rewrite (indexAnkiCards_ids files later _ Hfound) in Hcid.
    apply list_elem_of_fmap in Hcid as (parsed & Hpid & Hparsed).
    apply (Hother parsed Hparsed). congruence.
Qed.

End SessionWriteBack.

Lemma selected_card_is_written_back_witness :
  length (saved (updateCardAfterReview 1500 (waitingCard 5) 2
                   (writeBacks [(1400, waitingCard 4, 3)] storeOfFive)).1)
  = 2%nat
  /\ saved (updateCardAfterReview 1500 (waitingCard 5) 2
              (indexAnkiCards [ {| basename := str "Geo"; read := Some franceFirst |} ]
                 1450 (writeBacks [(1400, waitingCard 4, 3)] storeOfFive))).1
     = saved (indexAnkiCards [ {| basename := str "Geo"; read := Some franceFirst |} ]
                1450 (writeBacks [(1400, waitingCard 4, 3)] storeOfFive)).
Proof.
  assert (Hselected :
            waitingCard 5 ∈ cardsToReview (reviewCards reverse 1000 storeOfFive).2
            \/ waitingCard 5 ∈ cardsToReview (forceReviewCards storeOfFive).2)
    by (left; vm_compute; apply list_elem_of_here).
  destruct (selected_card_is_written_back
              reverse (@reverse_Permutation AnkiCard) 1000 1500 2
              storeOfFive (waitingCard 5) [(1400, waitingCard 4, 3)] Hselected)
    as [(Hsaved & _) Hindexed].
  split.
  - rewrite Hsaved. vm_compute. reflexivity.
  - apply Hindexed.
    + vm_compute. discriminate.
    + intros parsed Hparsed.
      assert (Hvault : [ {| basename := str "Geo"; read := Some franceFirst |} ]
                         ≫= parsedCardsOfFile
                       = [newCard (str "What is the capital of France?") (str "Paris")
                                  (str "Geo") 0])
        by (vm_compute; reflexivity).
      rewrite Hvault in Hparsed.
      apply list_elem_of_singleton in Hparsed. subst parsed.
      vm_compute. discriminate.
Defined.

(** X22: review progress survives the next indexing pass. In a store with
    unique ids, after a card is rated and written back, an indexing pass
    over a vault that still holds a card with that id gives every such card
    of the new store the scheduling state the review computed. *)
Theorem review_survives_reindexing
        (files : list MarkdownFile) (now later : Z) (card old parsed : AnkiCard)
        (difficultyRating : Z) (p : Plugin) :
  NoDup (id <$> storedCards p) ->
  old ∈ storedCards p -> id old = id card ->
  parsed ∈ files ≫= parsedCardsOfFile -> id parsed = id card ->
  let card' := calculateNextReview (settings p) now card difficultyRating in
  let p' := indexAnkiCards files later (updateCardAfterReview now card difficultyRating p).1 in
  (exists merged, merged ∈ storedCards p' /\ id merged = id card)
  /\ forall merged,
      merged ∈ storedCards p' -> id merged = id card -> sameSchedule merged card'.
Proof.
  intros Hnodup Hold Hid Hparsed Hpid. cbv zeta.
  set (p1 := (updateCardAfterReview now card difficultyRating p).1).
  assert (Hlook : lookupById (storedCards p1) !! id card
                  = Some (calculateNextReview (settings p) now card difficultyRating)).
  { assert (Hids : id <$> storedCards p1 = id <$> storedCards p).
    { unfold p1. rewrite updateCardAfterReview_stored.
      destruct (list_find _ (storedCards p)) as [[cardIndex found]|] eqn:Hfind;
        [|reflexivity].
      apply list_find_Some in Hfind as (Hlookup & Hfid & _).
      rewrite list_fmap_insert. apply list_insert_id.
      rewrite list_lookup_fmap, Hlookup. simpl. now rewrite Hfid. }
    destruct (updateCardAfterReview_found now card difficultyRating p old Hold Hid)
      as (cardIndex & found & _ & Hlookup & _ & Hstored & _).
    fold p1 in Hstored.
    assert (Hin : calculateNextReview (settings p) now card difficultyRating
                    ∈ storedCards p1).
    { rewrite Hstored. apply list_elem_of_lookup. exists cardIndex.
      apply list_lookup_insert_eq. eapply lookup_lt_Some. exact Hlookup. }
    destruct (lookupById_elem _ _ Hin) as (c & Hc).
    rewrite calculateNextReview_id in Hc. rewrite Hc. f_equal.
    apply lookupById_Some in Hc as (earlier & rest & Hsplit & Hcid & _).
    rewrite <- Hids in Hnodup. apply (NoDup_fmap_eq id _ _ _ Hnodup).
    - rewrite Hsplit. apply elem_of_app. right. apply list_elem_of_here.
    - exact Hin.
    - now rewrite calculateNextReview_id. }
  assert (Hnew : storedCards (indexAnkiCards files later p1)
                 = mergeCard (lookupById (storedCards p1)) <$> (files ≫= parsedCardsOfFile)).
  { rewrite indexAnkiCards_stored, scanVault_fmap.
    destruct (files ≫= parsedCardsOfFile) as [|first others];
      [now apply elem_of_nil in Hparsed|reflexivity]. }
  rewrite Hnew. split.
  - exists (mergeCard (lookupById (storedCards p1)) parsed). split.
    + apply list_elem_of_fmap. eauto.
    + destruct (mergeCard_text (lookupById (storedCards p1)) parsed) as (Hmid & _).
      now rewrite Hmid.
  - intros merged Hin Hmid.
    apply list_elem_of_fmap in Hin as (q & -> & Hq).
    destruct (mergeCard_text (lookupById (storedCards p1)) q) as (Hqid & _).
    apply mergeCard_found. rewrite <- Hqid, Hmid. exact Hlook.
Qed.

Lemma review_survives_reindexing_witness :
  exists merged,
    merged ∈ storedCards
               (indexAnkiCards [ {| basename := str "Geo"; read := Some franceMoved |} ]
                  1700000600000
                  (updateCardAfterReview 1700000500000 franceReviewed 3
                                         storeWithFrance).1)
    /\ id merged = id franceReviewed.
Proof.
  refine (proj1 (review_survives_reindexing
                   [ {| basename := str "Geo"; read := Some franceMoved |} ]
                   1700000500000 1700000600000 franceReviewed franceReviewed
                   (newCard (str "What is the capital of France?") (str "Paris")
                            (str "Geo") 12)
                   3 storeWithFrance _ _ _ _ _)).
  - apply NoDup_singleton.
  - apply list_elem_of_here.
  - reflexivity.
  - vm_compute. apply list_elem_of_here.
  - reflexivity.
Defined.

(** X23: an id that the store holds more than once loses its review at the
    next indexing pass. The write-back replaces the first entry with the id,
    the lookup table of the merge keeps the last one, so after a rating and
    an indexing pass every card with that id carries the scheduling state of
    the last, unrated entry. *)
Theorem review_of_repeated_id_is_not_merged
        (files : list MarkdownFile) (now later : Z) (card parsed : AnkiCard)
        (difficultyRating : Z) (p : Plugin)
        (before between after : list AnkiCard) (first lastEntry : AnkiCard) :
  storedCards p = before ++ first :: between ++ lastEntry :: after ->
  id first = id card -> id lastEntry = id card ->
  (forall c, c ∈ before -> id c <> id card) ->
  (forall c, c ∈ after -> id c <> id card) ->
  parsed ∈ files ≫= parsedCardsOfFile -> id parsed = id card ->
  let p1 := (updateCardAfterReview now card difficultyRating p).1 in
  let p' := indexAnkiCards files later p1 in
  storedCards p1
  = before ++ calculateNextReview (settings p) now card difficultyRating
           :: between ++ lastEntry :: after
  /\ (exists merged, merged ∈ storedCards p' /\ id merged = id card)
  /\ forall merged,
      merged ∈ storedCards p' -> id merged = id card -> sameSchedule merged lastEntry.
Proof.
  intros Hstore Hfirst Hlast Hbefore Hafter Hparsed Hpid. cbv zeta.
  assert (Hfind : list_find (fun c => id c = id card) (storedCards p)
                  = Some (length before, first)).
  { apply list_find_Some. rewrite Hstore. split; [now apply list_lookup_middle|].
    split; [exact Hfirst|]. intros j y Hj Hlt.
    rewrite lookup_app_l in Hj by exact Hlt.
    apply Hbefore. apply list_elem_of_lookup. eauto. }
  assert (Hp1 : storedCards (updateCardAfterReview now card difficultyRating p).1
                = before ++ calculateNextReview (settings p) now card difficultyRating
                         :: between ++ lastEntry :: after).
  { rewrite updateCardAfterReview_stored, Hfind, Hstore.
    rewrite insert_app_r_alt by lia. now rewrite Nat.sub_diag. }
  split; [exact Hp1|].
  assert (Hlook : lookupById
                    (storedCards (updateCardAfterReview now card difficultyRating p).1)
                    !! id card = Some lastEntry).
  { rewrite Hp1.
    replace (before ++ calculateNextReview (settings p) now card difficultyRating
                    :: between ++ lastEntry :: after)
      with ((before ++ calculateNextReview (settings p) now card difficultyRating
                    :: between) ++ lastEntry :: after)
      by (rewrite <- app_assoc; reflexivity).
    now apply lookupById_last. }
  set (p1 := (updateCardAfterReview now card difficultyRating p).1) in *.
  assert (Hnew : storedCards (indexAnkiCards files later p1)
                 = mergeCard (lookupById (storedCards p1)) <$> (files ≫= parsedCardsOfFile)).
  { rewrite indexAnkiCards_stored, scanVault_fmap.
    destruct (files ≫= parsedCardsOfFile) as [|one others];
      [now apply elem_of_nil in Hparsed|reflexivity]. }
  rewrite Hnew. split.
  - exists (mergeCard (lookupById (storedCards p1)) parsed). split.
    + apply list_elem_of_fmap. eauto.
    + destruct (mergeCard_text (lookupById (storedCards p1)) parsed) as (Hmid & _).
      now rewrite Hmid.
  - intros merged Hin Hmid.
    apply list_elem_of_fmap in Hin as (q & -> & Hq).
    destruct (mergeCard_text (lookupById (storedCards p1)) q) as (Hqid & _).
    apply mergeCard_found. rewrite <- Hqid, Hmid. exact Hlook.
Qed.

Lemma review_of_repeated_id_is_not_merged_witness :
  exists merged,
    merged ∈ storedCards
               (indexAnkiCards [ {| basename := str "Geo"; read := Some franceFirst |} ]
                  1700000600000
                  (updateCardAfterReview 1700000500000 twinCard 2 storeOfTwins).1)
    /\ id merged = id twinCard.
Proof.
  refine (proj1 (proj2 (review_of_repeated_id_is_not_merged
                          [ {| basename := str "Geo"; read := Some franceFirst |} ]
                          1700000500000 1700000600000 twinCard
                          (newCard (str "What is the capital of France?") (str "Paris")
                                   (str "Geo") 0)
                          2 storeOfTwins [] [] [] twinCard twinCard _ _ _ _ _ _ _))).
  - reflexivity.
  - reflexivity.
  - reflexivity.
  - intros c Hc. now apply elem_of_nil in Hc.
  - intros c Hc. now apply elem_of_nil in Hc.
  - vm_compute. apply list_elem_of_here.
  - reflexivity.
Defined.

(** ** Shape of an id *)

Lemma digit36_isDigit36 d : 0 <= d < 36 -> isDigit36 (digit36 d).
Proof.
  intros Hd. unfold isDigit36, digit36. destruct (d <? 10) eqn:Hlt.
  - apply Z.ltb_lt in Hlt. left. lia.
  - apply Z.ltb_ge in Hlt. right. lia.
Qed.

Lemma toString36_digits_shape fuel : forall n k,
  0 <= n < 36 ^ Z.of_nat (S k) ->
  Forall isDigit36 (toString36_digits (S fuel) n [])
  /\ (1 <= length (toString36_digits (S fuel) n []) <= S k)%nat.
Proof.
  induction fuel as [|fuel IH]; intros n k Hn.
  - simpl. assert (Hd : isDigit36 (digit36 (n mod 36)))
      by (apply digit36_isDigit36, Z.mod_pos_bound; lia).
    destruct (n <? 36); simpl; (split; [constructor; [exact Hd|constructor]|lia]).
  - change (toString36_digits (S (S fuel)) n [])
      with (if n <? 36 then [digit36 (n mod 36)]
            else toString36_digits (S fuel) (n / 36) [digit36 (n mod 36)]).
    assert (Hd : isDigit36 (digit36 (n mod 36)))
      by (apply digit36_isDigit36, Z.mod_pos_bound; lia).
    destruct (n <? 36) eqn:Hsmall.
    + simpl. split; [constructor; [exact Hd|constructor]|lia].
    + apply Z.ltb_ge in Hsmall. rewrite toString36_digits_app.
      destruct k as [|k].
      { change (36 ^ Z.of_nat 1) with 36 in Hn. lia. }
      destruct (IH (n / 36) k) as (Hall & Hlen).
      { split; [apply Z.div_pos; lia|].
        apply Z.div_lt_upper_bound; [lia|].
        rewrite (Nat2Z.inj_succ (S k)), Z.pow_succ_r in Hn by lia. lia. }
      split.
      * apply Forall_app. split; [exact Hall|constructor; [exact Hd|constructor]].
      * rewrite length_app. change (length [digit36 (n mod 36)]) with 1%nat. lia.
Qed.

(** X24: every card id is the tag [card_] followed by one to six digits of
    radix 36 ([0-9a-z]): between 6 and 11 code units in all. *)
Theorem card_id_is_tag_and_six_digits (front back sourceFile : jsstring) :
  exists digits,
    generateCardId front back sourceFile = str "card_" ++ digits
    /\ Forall isDigit36 digits
    /\ (1 <= length digits <= 6)%nat
    /\ (6 <= length (generateCardId front back sourceFile) <= 11)%nat.
Proof.
  exists (toString36 (Z.abs (contentHash front back sourceFile))).
  assert (Hrange : - 2 ^ 31 <= contentHash front back sourceFile < 2 ^ 31).
  { unfold contentHash. apply fold_hashStep_range. }
  assert (Hshape : Forall isDigit36 (toString36 (Z.abs (contentHash front back sourceFile)))
                   /\ (1 <= length (toString36 (Z.abs (contentHash front back sourceFile)))
                       <= 6)%nat).
  { unfold toString36. apply toString36_digits_shape.
    change (36 ^ Z.of_nat 6) with 2176782336. change (2 ^ 31) with 2147483648 in Hrange.
    lia. }
  destruct Hshape as (Hall & Hlen).
  split; [reflexivity|]. split; [exact Hall|]. split; [exact Hlen|].
  unfold generateCardId. fold (contentHash front back sourceFile).
  rewrite length_app. change (length (str "card_")) with 5%nat. lia.
Qed.

(** ** Review session *)

Lemma rateAll_session todo : forall done ratings shown p,
  length ratings = length todo ->
  todo <> [] ->
  Forall (fun c => id c ∈ (id <$> storedCards p)) todo ->
  exists m' p',
    rateAll ratings
            ({| sessionCards := done ++ todo; currentIndex := length done;
                showingAnswer := shown; isOpen := true |}, p)
    = Some (m', p')
    /\ sessionCards m'
       = done ++ zip_with (fun c r => calculateNextReview (settings p) r.1 c r.2)
                          todo ratings
    /\ isOpen m' = false
    /\ settings p' = settings p
    /\ id <$> storedCards p' = id <$> storedCards p
    /\ length (saved p') = (length (saved p) + length todo)%nat.
Proof.
  induction todo as [|c todo IH]; intros done ratings shown p Hlen Hne Hids;
    [contradiction|].
  destruct ratings as [|[now rating] ratings]; [discriminate|].
  simpl in Hlen. injection Hlen as Hlen.
  apply Forall_cons in Hids as (Hc & Hids).
  apply list_elem_of_fmap in Hc as (old & Hoid & Hold).
  destruct (updateCardAfterReview_found now c rating p old Hold (eq_sym Hoid))
    as (cardIndex & found & _ & _ & _ & _ & Hsaved).
  destruct (updateCardAfterReview_settings now c rating p) as (Hset & Hcard).
  pose proof (updateCardAfterReview_ids now c rating p) as Hkeep.
  cbn [rateAll]. unfold rateCard.
  cbn [fst snd sessionCards currentIndex showingAnswer isOpen].
  rewrite list_lookup_middle by reflexivity.
  destruct (updateCardAfterReview now c rating p) as [p1 c1].
  cbn [fst snd] in *. subst c1.
  rewrite insert_app_r_alt, Nat.sub_diag by lia.
  change (<[0%nat := calculateNextReview (settings p) now c rating]> (c :: todo))
    with (calculateNextReview (settings p) now c rating :: todo).
  unfold showNextCard. cbn [sessionCards currentIndex showingAnswer isOpen].
  rewrite length_app. cbn [length].
  set (c' := calculateNextReview (settings p) now c rating).
  destruct todo as [|c2 todo].
  - destruct ratings; [|discriminate].
    destruct (_ <? _) eqn:Hcmp; [apply Z.ltb_lt in Hcmp; cbn [length] in Hcmp; lia|].
    eexists _, _. split; [reflexivity|].
    cbn [sessionCards isOpen zip_with length].
    split; [reflexivity|]. split; [reflexivity|]. split; [exact Hset|].
    split; [exact Hkeep|]. lia.
  - destruct (_ <? _) eqn:Hcmp; [|apply Z.ltb_ge in Hcmp; cbn [length] in Hcmp; lia].
    destruct (IH (done ++ [c']) ratings false p1) as (m' & p' & Hrun & Hcards & Hclosed
                                                      & Hset' & Hids' & Hsaved').
    + exact Hlen.
    + discriminate.
    + now rewrite Hkeep.
    + exists m', p'.
      replace (S (length done)) with (length (done ++ [c']))
        by (rewrite length_app; cbn [length]; lia).
      replace (done ++ c' :: c2 :: todo) with ((done ++ [c']) ++ c2 :: todo)
        by (rewrite <- app_assoc; reflexivity).
      split; [exact Hrun|]. split.
      * rewrite Hcards, Hset, <- app_assoc. reflexivity.
      * split; [exact Hclosed|]. split; [congruence|]. split; [congruence|].
        rewrite Hsaved', Hsaved. cbn [length]. lia.
Qed.

(** X25: a review session rates every card once, in order, and then closes.
    For a session opened on a list of stored cards that is not empty, one
    rating per card leaves the modal closed, each card of the session
    rescheduled by its own rating, the data object saved once per card, and
    the ids of the store as they were. *)
Theorem session_rates_each_card_once
        (cards : list AnkiCard) (ratings : list (Z * Z)) (p : Plugin) :
  length ratings = length cards ->
  cards <> [] ->
  Forall (fun c => id c ∈ (id <$> storedCards p)) cards ->
  exists m' p',
    rateAll ratings (openModal cards, p) = Some (m', p')
    /\ sessionCards m'
       = zip_with (fun c r => calculateNextReview (settings p) r.1 c r.2) cards ratings
    /\ isOpen m' = false
    /\ settings p' = settings p
    /\ id <$> storedCards p' = id <$> storedCards p
    /\ length (saved p') = (length (saved p) + length cards)%nat.
Proof.
  intros Hlen Hne Hids.
  exact (rateAll_session cards [] ratings false p Hlen Hne Hids).
Qed.

Lemma session_rates_each_card_once_witness :
  exists m' p',
    rateAll [(1500, 2); (1600, 3)] (openModal [waitingCard 5; waitingCard 4], storeOfFive)
    = Some (m', p')
    /\ isOpen m' = false
    /\ length (saved p') = 2%nat.
Proof.
  destruct (session_rates_each_card_once
              [waitingCard 5; waitingCard 4] [(1500, 2); (1600, 3)] storeOfFive)
    as (m' & p' & Hrun & _ & Hclosed & _ & _ & Hsaved).
  - reflexivity.
  - discriminate.
  - assert (Hin : forall n, n ∈ [1; 2; 3; 4; 5] ->
                          id (waitingCard n) ∈ (id <$> storedCards storeOfFive)).
    { intros n Hn. apply list_elem_of_fmap. exists (waitingCard n).
      split; [reflexivity|]. apply list_elem_of_fmap. now exists n. }
    constructor; [|constructor; [|constructor]]; apply Hin;
      repeat (first [apply list_elem_of_here | apply list_elem_of_further]).
  - exists m', p'. split; [exact Hrun|]. split; [exact Hclosed|exact Hsaved].
Defined.
